(** * devbox: the retry decorator and the EC2 lifecycle operations

    A shallow embedding of [devbox/retry.py] and [devbox/ec2.py].

    Python exceptions are values of [exn]; a computation that may raise
    returns an [outcome].  Code that talks to the outside world (the wrapped
    operation, the reporting sink, [time.sleep], boto3) is written in
    state-passing style over a world. *)

From stdpp Require Import gmap strings list.

Local Open Scope string_scope.
Local Open Scope list_scope.

(** ** Exceptions and outcomes *)

(** The exception classes that occur in the two modules, with
    [KeyboardInterrupt] standing for the classes that derive from
    [BaseException] directly. *)
Inductive exn_class :=
| BaseException
| KeyboardInterrupt
| Exception
| ClientError
| ValueError
| IndexError
| UnboundLocalError
| OverflowError
| HTTPError.

Global Instance exn_class_eq_dec : EqDecision exn_class.
Proof. solve_decision. Defined.

(** An exception object: its class, [str(e)], the attribute [code] when the
    object has one, and botocore's [e.response["Error"]] fields. *)
Record exn := mk_exn {
  exn_cls : exn_class;
  exn_str : string;
  exn_code : option Z;
  error_Code : string;
  error_Message : string
}.

Global Instance exn_eq_dec : EqDecision exn.
Proof. solve_decision. Defined.

(** [isinstance(e, c)] for the classes above. *)
Definition isinstance (e : exn) (c : exn_class) : bool :=
  match c with
  | BaseException => true
  | Exception =>
      match exn_cls e with
      | BaseException | KeyboardInterrupt => false
      | _ => true
      end
  | _ => bool_decide (exn_cls e = c)
  end.

(** [hasattr(problem, "code") and problem.code == 403] *)
Definition code_is_403 (problem : exn) : bool :=
  match exn_code problem with
  | Some c => (c =? 403)%Z
  | None => false
  end.

Inductive outcome (A : Type) :=
| Return (v : A)
| Raise (e : exn).
Arguments Return {A} v.
Arguments Raise {A} e.

(** ** retry.py *)

(** The two strings handed to [report]:
    ["retry failed definitely: {}".format(problems)] and
    ["retry failed: {} -- delaying for {}s".format(problem, delay)],
    kept as the format's arguments. *)
Inductive message :=
| RetryFailedDefinitely (problems : list exn)
| RetryFailed (problem : exn) (delay : N).

(** [time.sleep(delay)] takes a whole number of seconds that fits its
    clock, which counts nanoseconds in 64 bits: up to 9223372036 seconds.
    From 9223372037 seconds on it raises [OverflowError], without sleeping. *)
Definition sleep_limit : N := 9223372036%N.

Definition sleep_accepts (delay : N) : bool := (delay <=? sleep_limit)%N.

Definition overflow_error : exn :=
  mk_exn OverflowError "timestamp too large to convert to C _PyTime_t"
         None "" "".

(** [itertools.chain(delays, [None])]: the delays are whole numbers of
    seconds. *)
Definition chain (delays : list N) (last : list (option N)) : list (option N) :=
  map Some delays ++ last.

Section retry.
Context {W A : Type}.
(** [time.sleep], which may raise, and Python's [None] *)
Variable sleep : N → W → outcome unit * W.
Variable none : A.
(** the decorator's arguments *)
Variable delays : list N.
Variable exception : exn_class.
Variable report : message → W → W.
(** the decorated function, applied to its arguments *)
Variable function : W → outcome A * W.

(** The [for] loop of [wrapped], from the remaining schedule and the
    [problems] gathered so far.  A loop that ends without [return] or
    [raise] falls off the function's end, which returns [None].  An error
    that [time.sleep] raises inside the [except] block leaves the wrapper. *)
Fixpoint loop (schedule : list (option N)) (problems : list exn) (w : W)
  : outcome A * W :=
  match schedule with
  | [] => (Return none, w)
  | delay :: schedule' =>
      match function w with
      | (Return v, w1) => (Return v, w1)
      | (Raise problem, w1) =>
          if isinstance problem exception then
            if code_is_403 problem then (Raise problem, w1)
            else
              let problems := problems ++ [problem] in
              match delay with
              | None =>
                  (Raise problem, report (RetryFailedDefinitely problems) w1)
              | Some d =>
                  match sleep d (report (RetryFailed problem d) w1) with
                  | (Return _, w2) => loop schedule' problems w2
                  | (Raise err, w2) => (Raise err, w2)
                  end
              end
          else (Raise problem, w1)
      end
  end.

Definition retry : W → outcome A * W := loop (chain delays [None]) [].
End retry.

(** The default schedule [delays=(0, 1, 2, 4, 8, 16)]. *)
Definition default_delays : list N := [0; 1; 2; 4; 8; 16]%N.

(** ** Observing a run of the wrapper

    The wrapped operation has a state of its own, [St]; the sink and
    [time.sleep] are recorded, [time.sleep] also when it raises.  A run of
    the wrapper then yields the operation's final state and the sequence of
    what happened. *)
Inductive event :=
| EvCall
| EvReport (m : message)
| EvSleep (d : N).

Fixpoint invocations (tr : list event) : nat :=
  match tr with
  | [] => 0
  | EvCall :: tr' => S (invocations tr')
  | _ :: tr' => invocations tr'
  end.

Fixpoint sleeps (tr : list event) : list N :=
  match tr with
  | [] => []
  | EvSleep d :: tr' => d :: sleeps tr'
  | _ :: tr' => sleeps tr'
  end.

Fixpoint reports (tr : list event) : list message :=
  match tr with
  | [] => []
  | EvReport m :: tr' => m :: reports tr'
  | _ :: tr' => reports tr'
  end.

(** What one failed attempt followed by its back-off leaves in the record. *)
Definition round (problem : exn) (d : N) : list event :=
  [EvCall; EvReport (RetryFailed problem d); EvSleep d].

Fixpoint rounds (problems : list exn) (ds : list N) : list event :=
  match problems, ds with
  | problem :: problems', d :: ds' => round problem d ++ rounds problems' ds'
  | _, _ => []
  end.

Section observed.
Context {St A : Type}.
Variable none : A.
Variable exception : exn_class.
Variable function : St → outcome A * St.

Definition obs_function (w : St * list event) : outcome A * (St * list event) :=
  let '(r, s) := function w.1 in (r, (s, w.2 ++ [EvCall])).
Definition obs_report (m : message) (w : St * list event) : St * list event :=
  (w.1, w.2 ++ [EvReport m]).
Definition obs_sleep (d : N) (w : St * list event)
  : outcome unit * (St * list event) :=
  (if sleep_accepts d then Return tt else Raise overflow_error,
   (w.1, w.2 ++ [EvSleep d])).

Definition obs_loop := loop obs_sleep none exception obs_report obs_function.

(** The decorated operation run from state [s], with an empty record. *)
Definition run_retry (delays : list N) (s : St)
  : outcome A * (St * list event) :=
  retry obs_sleep none delays exception obs_report obs_function (s, []).

(** An error the wrapper answers with a retry: caught by the [except]
    clause and not carrying [code == 403]. *)
Definition retried (e : exn) : bool :=
  isinstance e exception && negb (code_is_403 e).

(** [fails_with s es s']: invoked repeatedly from state [s], the operation
    raises the errors [es], one per invocation, and is then in state [s']. *)
Inductive fails_with : St → list exn → St → Prop :=
| fails_nil s : fails_with s [] s
| fails_cons s e s1 es s' :
    function s = (Raise e, s1) →
    fails_with s1 es s' →
    fails_with s (e :: es) s'.
End observed.

(** ** ec2.py: the provider and the world *)

(** The part of a [describe_instances] response the locator reads:
    [response["Reservations"]], each with its ["Instances"]. *)
Record instance_description := { InstanceId : string }.
Record reservation := { Instances : list instance_description }.

(** An element of [instance.security_groups]. *)
Record group_identifier := { GroupId : string }.

Record ip_range := { CidrIp : string }.
Record ip_permission := {
  IpProtocol : string;
  FromPort : Z;
  ToPort : Z;
  IpRanges : list ip_range
}.

Global Instance ip_range_eq_dec : EqDecision ip_range.
Proof. solve_decision. Defined.
Global Instance ip_permission_eq_dec : EqDecision ip_permission.
Proof. solve_decision. Defined.

(** What [security_group.authorize_ingress] answers on success. *)
Record authorize_response := { SecurityGroupRules : list ip_permission }.

(** boto3 resource objects are handles on an identifier. *)
Record ec2_Instance := { resource_id : string }.
Record SecurityGroup := { group_id : string }.

(** The remote service behind boto3, over a provider state [P]: the requests
    and attribute reads that [ec2.py] makes, and what the service does while
    the client sleeps.  Making the client and the resource
    ([boto3.client("ec2")], [boto3.resource("ec2")]) sends no request; the
    credentials and the region are the environment's. *)
Record provider (P : Type) := {
  describe_instances : string → P → outcome (list reservation) * P;
  instance_start : string → P → outcome unit * P;
  instance_wait_until_running : string → P → outcome unit * P;
  instance_stop : string → P → outcome unit * P;
  instance_wait_until_stopped : string → P → outcome unit * P;
  instance_reboot : string → P → outcome unit * P;
  instance_security_groups : string → P → outcome (list group_identifier) * P;
  instance_public_ip_address : string → P → outcome (option string) * P;
  instance_state_Name : string → P → outcome string * P;
  group_authorize_ingress :
    string → list ip_permission → P → outcome authorize_response * P;
  elapse : N → P → P
}.
Arguments describe_instances {P}.
Arguments instance_start {P}.
Arguments instance_wait_until_running {P}.
Arguments instance_stop {P}.
Arguments instance_wait_until_stopped {P}.
Arguments instance_reboot {P}.
Arguments instance_security_groups {P}.
Arguments instance_public_ip_address {P}.
Arguments instance_state_Name {P}.
Arguments group_authorize_ingress {P}.
Arguments elapse {P}.

Inductive api_call :=
| DescribeInstances (name : string)
| Start (i : string)
| WaitUntilRunning (i : string)
| Stop (i : string)
| WaitUntilStopped (i : string)
| Reboot (i : string)
| GetSecurityGroups (i : string)
| GetPublicIpAddress (i : string)
| GetStateName (i : string)
| AuthorizeIngress (g : string) (IpPermissions : list ip_permission)
| Sleep (d : N).

Inductive level := INFO | ERROR.

(** A logged line: a string, or one of the retry decorator's messages. *)
Inductive text :=
| Str (s : string)
| Fmt (m : message).

(** The world of [ec2.py]: the provider, the calls made so far and the
    lines logged so far. *)
Record world (P : Type) := mk_world {
  remote : P;
  calls : list api_call;
  records : list (level * text)
}.
Arguments mk_world {P}.
Arguments remote {P}.
Arguments calls {P}.
Arguments records {P}.

(** [f"...{x}..."] of a value that may be [None]. *)
Definition fmt (x : option string) : string :=
  match x with
  | Some s => s
  | None => "None"
  end.

(** [needle in haystack] on strings. *)
Definition contains (needle haystack : string) : bool :=
  match String.index 0 needle haystack with
  | Some _ => true
  | None => false
  end.

(** boto3's resource factory [boto3_resource.Instance(instance_id)]: every
    identifier is required; otherwise the handle is made without a request. *)
Definition boto3_Instance (instance_id : option string) : outcome ec2_Instance :=
  match instance_id with
  | None => Raise (mk_exn ValueError "Required parameter id not set" None "" "")
  | Some i => Return {| resource_id := i |}
  end.

Definition duplicate_code : string := "InvalidPermission.Duplicate".

(** The [ip_permissions] of [authorize_ingress]: SSH ingress open to only
    the specified IP address. *)
Definition ip_permissions_for (ssh_ingress_ip : string) : list ip_permission :=
  [ {| IpProtocol := "tcp";
       FromPort := 22;
       ToPort := 22;
       IpRanges := [ {| CidrIp := ssh_ingress_ip +:+ "/32" |} ] |} ].

Definition M (P A : Type) : Type := world P → outcome A * world P.

Definition ret {P A} (v : A) : M P A := fun w => (Return v, w).
Definition raise {P A} (e : exn) : M P A := fun w => (Raise e, w).
Definition bind {P A B} (m : M P A) (k : A → M P B) : M P B :=
  fun w =>
    match m w with
    | (Return v, w1) => k v w1
    | (Raise e, w1) => (Raise e, w1)
    end.

Notation "'let*' x ':=' m 'in' k" := (bind m (fun x => k))
  (at level 10, x pattern, m at level 100, k at level 200, only parsing).
Notation "m ';;' k" := (bind m (fun _ => k))
  (at level 100, k at level 200, right associativity, only parsing).

(** [try: body except ...]: [handler e] is the clause that matches [e], if
    one does. *)
Definition try_except {P A} (body : M P A) (handler : exn → option (M P A))
  : M P A :=
  fun w =>
    match body w with
    | (Return v, w1) => (Return v, w1)
    | (Raise e, w1) =>
        match handler e with
        | Some h => h w1
        | None => (Raise e, w1)
        end
    end.

Definition lift {P A} (r : outcome A) : M P A := fun w => (r, w).

(** A request or attribute read, recorded among the calls. *)
Definition call {P A} (c : api_call) (op : P → outcome A * P) : M P A :=
  fun w =>
    let '(r, p) := op (remote w) in
    (r, mk_world p (calls w ++ [c]) (records w)).

Definition log {P} (l : level) (t : text) (w : world P) : world P :=
  mk_world (remote w) (calls w) (records w ++ [(l, t)]).

Definition logger_info {P} (s : string) : M P unit :=
  fun w => (Return tt, log INFO (Str s) w).
Definition logger_error {P} (s : string) : M P unit :=
  fun w => (Return tt, log ERROR (Str s) w).

(** Where a statement of a function body leaves the function: at a
    [return], or at the next statement with a local variable. *)
Inductive control (R V : Type) :=
| Returns (r : R)
| Continues (v : V).
Arguments Returns {R V} r.
Arguments Continues {R V} v.

(** [l[0]] *)
Definition index0 {A} (l : list A) : outcome A :=
  match l with
  | x :: _ => Return x
  | [] => Raise (mk_exn IndexError "list index out of range" None "" "")
  end.

Global Instance instance_description_eq_dec : EqDecision instance_description.
Proof. solve_decision. Defined.
Global Instance reservation_eq_dec : EqDecision reservation.
Proof. solve_decision. Defined.

(** ** ec2.py: the functions *)

Section ec2.
Context {P : Type}.
Variable aws : provider P.

(** [time.sleep]: the client waits, the provider carries on; a delay
    that [time.sleep] does not accept is not waited. *)
Definition time_sleep (d : N) (w : world P) : outcome unit * world P :=
  if sleep_accepts d then
    (Return tt,
     mk_world (elapse aws d (remote w)) (calls w ++ [Sleep d]) (records w))
  else
    (Raise overflow_error,
     mk_world (remote w) (calls w ++ [Sleep d]) (records w)).

(** [logger.info] as the decorator's [report]. *)
Definition report_info (m : message) (w : world P) : world P :=
  log INFO (Fmt m) w.

Definition get_ec2_instance_resource (instance_id : option string)
  : M P (option ec2_Instance) :=
  let* after_try :=
    try_except
      (let* resource := lift (boto3_Instance instance_id) in
       ret (Continues (Some resource)))
      (fun e =>
         if isinstance e ClientError then
           Some (logger_error
                   ("Error getting EC2 instance resource: " +:+ exn_str e);;
                 ret (Returns None))
         else if isinstance e ValueError then
           Some (if contains "Required parameter" (exn_str e)
                 then
                   logger_error
                     "No instance ID was found for the lookup operation";;
                   ret (Returns None)
                 else ret (Continues None))
         else None) in
  match after_try with
  | Returns r => ret r
  | Continues (Some resource) => ret (Some resource)
  | Continues None =>
      raise (mk_exn UnboundLocalError
               "cannot access local variable 'resource' where it is not associated with a value"
               None "" "")
  end.

Definition get_ec2_instance_id_by_name (instance_name : string)
  : M P (option string) :=
  let* after_try :=
    try_except
      (let* response :=
         call (DescribeInstances instance_name)
              (describe_instances aws instance_name) in
       ret (Continues response))
      (fun e =>
         if isinstance e Exception then
           Some (logger_error
                   ("Error getting EC2 instance by name: " +:+ instance_name
                    +:+ ": " +:+ exn_str e);;
                 ret (Returns None))
         else None) in
  match after_try with
  | Returns r => ret r
  | Continues Reservations =>
      if bool_decide (Reservations = []) then
        logger_error ("No EC2 instance found by name: " +:+ instance_name);;
        ret None
      else if bool_decide (1 < length Reservations) then
        logger_error
          ("Multiple EC2 instances found by name: " +:+ instance_name);;
        ret None
      else
        let* r := lift (index0 Reservations) in
        let* i := lift (index0 (Instances r)) in
        ret (Some (InstanceId i))
  end.

(** [get_ec2_resource().SecurityGroup(id)] with a string [id]. *)
Definition get_security_group (id : string) : M P SecurityGroup :=
  ret {| group_id := id |}.

(** The function under [@retry(report=logger.info)]. *)
Definition get_instance_public_ip_body (instance_resource : ec2_Instance)
  : M P (option string) :=
  let* ip :=
    call (GetPublicIpAddress (resource_id instance_resource))
         (instance_public_ip_address aws (resource_id instance_resource)) in
  match ip with
  | None => raise (mk_exn Exception "No public IP address found" None "" "")
  | Some _ => ret ip
  end.

Definition get_instance_public_ip (instance_resource : ec2_Instance)
  : M P (option string) :=
  retry time_sleep None default_delays Exception report_info
        (get_instance_public_ip_body instance_resource).

Definition authorize_ingress (security_group : option SecurityGroup)
           (ssh_ingress_ip : string) : M P (option authorize_response) :=
  match security_group with
  | None => logger_info "No security group to update.";; ret None
  | Some security_group =>
      try_except
        (let ip_permissions := ip_permissions_for ssh_ingress_ip in
         let* response :=
           call (AuthorizeIngress (group_id security_group) ip_permissions)
                (group_authorize_ingress aws (group_id security_group)
                                         ip_permissions) in
         ret (Some response))
        (fun err =>
           if isinstance err ClientError then
             Some (if String.eqb (error_Code err) duplicate_code
                   then
                     logger_info "Inbound rules already exist. Nothing to do.";;
                     ret None
                   else
                     logger_error
                       ("Couldn't authorize inbound rules for "
                        +:+ group_id security_group +:+ ". Here's why: "
                        +:+ error_Code err +:+ ": " +:+ error_Message err);;
                     raise err)
           else None)
  end.

Definition start_instance (instance_name my_ip : string)
  : M P (option string * option string) :=
  logger_info ("1. Getting EC2 Instance by name " +:+ instance_name +:+ "...");;
  let* instance_id := get_ec2_instance_id_by_name instance_name in
  let* instance := get_ec2_instance_resource instance_id in
  match instance with
  | None => ret (None, None)
  | Some instance =>
      let i := resource_id instance in
      logger_info ("2. Starting EC2 Instance: " +:+ fmt instance_id +:+ "...");;
      call (Start i) (instance_start aws i);;
      logger_info
        ("3. Waiting for EC2 Instance to start: " +:+ fmt instance_id +:+ "...");;
      call (WaitUntilRunning i) (instance_wait_until_running aws i);;
      let* groups := call (GetSecurityGroups i) (instance_security_groups aws i) in
      let* g := lift (index0 groups) in
      logger_info ("4. Getting Security Group by ID: " +:+ GroupId g +:+ "...");;
      let* groups := call (GetSecurityGroups i) (instance_security_groups aws i) in
      let* g := lift (index0 groups) in
      let* security_group := get_security_group (GroupId g) in
      logger_info
        ("5. Authorizing ingress on port 22 for IP: " +:+ my_ip +:+ "...");;
      authorize_ingress (Some security_group) my_ip;;
      let* public_ip := get_instance_public_ip instance in
      ret (instance_id, public_ip)
  end.

Definition stop_instance (instance_name : string) : M P (option string) :=
  logger_info ("1. Getting EC2 Instance by name " +:+ instance_name +:+ "...");;
  let* instance_id := get_ec2_instance_id_by_name instance_name in
  let* instance := get_ec2_instance_resource instance_id in
  match instance with
  | None => ret None
  | Some instance =>
      let i := resource_id instance in
      logger_info ("2. Stopping EC2 Instance: " +:+ fmt instance_id +:+ "...");;
      call (Stop i) (instance_stop aws i);;
      logger_info
        ("3. Waiting for EC2 Instance to stop: " +:+ fmt instance_id +:+ "...");;
      call (WaitUntilStopped i) (instance_wait_until_stopped aws i);;
      ret instance_id
  end.

Definition get_instance_status (instance_name : string)
  : M P (option string * option string) :=
  let* instance_id := get_ec2_instance_id_by_name instance_name in
  let* instance := get_ec2_instance_resource instance_id in
  match instance with
  | None => ret (None, None)
  | Some instance =>
      let i := resource_id instance in
      let* state_Name := call (GetStateName i) (instance_state_Name aws i) in
      if String.eqb state_Name "stopped" then
        ret (Some "stopped", Some "0.0.0.0")
      else
        let* public_ip := get_instance_public_ip instance in
        let* state_Name := call (GetStateName i) (instance_state_Name aws i) in
        ret (Some state_Name, public_ip)
  end.

Definition reboot_instance (instance_name : string) : M P (option string) :=
  logger_info ("1. Getting EC2 Instance by name " +:+ instance_name +:+ "...");;
  let* instance_id := get_ec2_instance_id_by_name instance_name in
  let* instance := get_ec2_instance_resource instance_id in
  match instance with
  | None => ret None
  | Some instance =>
      let i := resource_id instance in
      logger_info ("2. Rebooting EC2 Instance: " +:+ fmt instance_id);;
      call (Reboot i) (instance_reboot aws i);;
      ret instance_id
  end.
End ec2.

(** ** Provider errors and the rule-set contract *)

(** botocore's [ClientError] for an error code and message of the provider. *)
Definition client_error (Code Message : string) : exn :=
  mk_exn ClientError ("An error occurred (" +:+ Code +:+ "): " +:+ Message)
         None Code Message.

(** The provider's duplicate-permission signal. *)
Definition is_duplicate (e : exn) : bool :=
  isinstance e ClientError && String.eqb (error_Code e) duplicate_code.

(** The provider took the request for what it asks: it granted the rule, or
    answered that the rule is there already. *)
Definition granted {P} (aws : provider P) (g : string)
           (perms : list ip_permission) (p p' : P) : Prop :=
  match group_authorize_ingress aws g perms p with
  | (Return _, q) => q = p'
  | (Raise e, q) => is_duplicate e = true ∧ q = p'
  end.

(** A rule set keeps its rules: a request the provider took once, it takes
    again. *)
Definition keeps_rules {P} (aws : provider P) : Prop :=
  ∀ g perms p p', granted aws g perms p p' → ∃ p'', granted aws g perms p' p''.

(** The name does not resolve: the query fails with an error that the
    locator catches, or answers with no reservation or with several. *)
Definition unresolved {P} (aws : provider P) (instance_name : string) (p : P)
  : bool :=
  match describe_instances aws instance_name p with
  | (Return Reservations, _) => negb (Nat.eqb (length Reservations) 1)
  | (Raise e, _) => isinstance e Exception
  end.

(** ** A reference provider

    Machines carry a name tag, a state and an address; the address of a
    machine that runs is reported once [vm_absent] reads have found it
    absent.  Rule sets are kept by group identifier. *)
Record vm := {
  vm_id : string;
  vm_name : string;
  vm_state : string;
  vm_address : string;
  vm_absent : nat;
  vm_groups : list string
}.

Record cloud := {
  vms : list vm;
  rule_sets : gmap string (list ip_permission)
}.

Definition find_vm (i : string) (c : cloud) : option vm :=
  List.find (fun v => String.eqb (vm_id v) i) (vms c).

Definition update_vm (i : string) (f : vm → vm) (c : cloud) : cloud :=
  {| vms := map (fun v => if String.eqb (vm_id v) i then f v else v) (vms c);
     rule_sets := rule_sets c |}.

Definition not_found (i : string) : exn :=
  client_error "InvalidInstanceID.NotFound"
               ("The instance ID '" +:+ i +:+ "' does not exist").

Definition on_vm {A} (i : string) (c : cloud) (k : vm → outcome A * cloud)
  : outcome A * cloud :=
  match find_vm i c with
  | Some v => k v
  | None => (Raise (not_found i), c)
  end.

Definition set_state (s : string) (v : vm) : vm :=
  {| vm_id := vm_id v; vm_name := vm_name v; vm_state := s;
     vm_address := vm_address v; vm_absent := vm_absent v;
     vm_groups := vm_groups v |}.

Definition one_read (v : vm) : vm :=
  {| vm_id := vm_id v; vm_name := vm_name v; vm_state := vm_state v;
     vm_address := vm_address v; vm_absent := pred (vm_absent v);
     vm_groups := vm_groups v |}.

Definition cloud_describe (name : string) (c : cloud)
  : outcome (list reservation) * cloud :=
  (Return (map (fun v => {| Instances := [ {| InstanceId := vm_id v |} ] |})
               (List.filter (fun v => String.eqb (vm_name v) name) (vms c))),
   c).

Definition cloud_public_ip (i : string) (c : cloud)
  : outcome (option string) * cloud :=
  on_vm i c (fun v =>
    if String.eqb (vm_state v) "stopped" then (Return None, c)
    else
      match vm_absent v with
      | O => (Return (Some (vm_address v)), c)
      | S _ => (Return None, update_vm i one_read c)
      end).

Definition cloud_authorize (g : string) (perms : list ip_permission) (c : cloud)
  : outcome authorize_response * cloud :=
  match rule_sets c !! g with
  | None =>
      (Raise (client_error "InvalidGroup.NotFound"
                ("The security group '" +:+ g +:+ "' does not exist")), c)
  | Some rules =>
      if existsb (fun perm => bool_decide (perm ∈ rules)) perms then
        (Raise (client_error duplicate_code
                  "the specified rule already exists"), c)
      else
        (Return {| SecurityGroupRules := perms |},
         {| vms := vms c; rule_sets := <[g := rules ++ perms]> (rule_sets c) |})
  end.

Definition reference : provider cloud := {|
  describe_instances := cloud_describe;
  instance_start i c :=
    on_vm i c (fun _ => (Return tt, update_vm i (set_state "running") c));
  instance_wait_until_running i c := on_vm i c (fun _ => (Return tt, c));
  instance_stop i c :=
    on_vm i c (fun _ => (Return tt, update_vm i (set_state "stopped") c));
  instance_wait_until_stopped i c := on_vm i c (fun _ => (Return tt, c));
  instance_reboot i c := on_vm i c (fun _ => (Return tt, c));
  instance_security_groups i c :=
    on_vm i c (fun v => (Return (map Build_group_identifier (vm_groups v)), c));
  instance_public_ip_address := cloud_public_ip;
  instance_state_Name i c := on_vm i c (fun v => (Return (vm_state v), c));
  group_authorize_ingress := cloud_authorize;
  elapse _ c := c
|}.

(** The reference provider when the machines of a name were launched by one
    request: the query answers with one reservation that holds them all. *)
Definition cloud_describe_together (name : string) (c : cloud)
  : outcome (list reservation) * cloud :=
  (Return
     match List.filter (fun v => String.eqb (vm_name v) name) (vms c) with
     | [] => []
     | vs => [ {| Instances := map (fun v => {| InstanceId := vm_id v |}) vs |} ]
     end,
   c).

Definition together : provider cloud := {|
  describe_instances := cloud_describe_together;
  instance_start := instance_start reference;
  instance_wait_until_running := instance_wait_until_running reference;
  instance_stop := instance_stop reference;
  instance_wait_until_stopped := instance_wait_until_stopped reference;
  instance_reboot := instance_reboot reference;
  instance_security_groups := instance_security_groups reference;
  instance_public_ip_address := instance_public_ip_address reference;
  instance_state_Name := instance_state_Name reference;
  group_authorize_ingress := group_authorize_ingress reference;
  elapse := elapse reference
|}.

Definition empty_world {P} (p : P) : world P := mk_world p [] [].

(** One stopped machine named devbox, in a group without rules. *)
Definition devbox : vm := {|
  vm_id := "i-0123";
  vm_name := "devbox";
  vm_state := "stopped";
  vm_address := "203.0.113.5";
  vm_absent := 2;
  vm_groups := ["sg-1"]
|}.

Definition one_devbox : cloud :=
  {| vms := [devbox]; rule_sets := {[ "sg-1" := [] ]} |}.

(** A second machine that carries the same name. *)
Definition devbox' : vm := {|
  vm_id := "i-0456";
  vm_name := "devbox";
  vm_state := "running";
  vm_address := "203.0.113.9";
  vm_absent := 0;
  vm_groups := ["sg-1"]
|}.

Definition two_devboxes : cloud :=
  {| vms := [devbox; devbox']; rule_sets := {[ "sg-1" := [] ]} |}.

(** ** Operations to run the wrapper on

    Their state counts the invocations made. *)
Definition not_yet : exn := mk_exn Exception "not yet" None "" "".
Definition forbidden : exn := mk_exn HTTPError "Forbidden" (Some 403%Z) "" "".

(** Fails [k] times, then answers. *)
Definition flaky (k : nat) (n : nat) : outcome (option string) * nat :=
  if (n <? k)%nat then (Raise not_yet, S n) else (Return (Some "ok"), S n).

(** A delay that [time.sleep] does not accept. *)
Definition too_long : N := 10000000000%N.

(** Is refused on every invocation. *)
Definition denied (n : nat) : outcome (option string) * nat :=
  (Raise forbidden, S n).

(** ** ec2.py: what is left open, and what is observed *)

(** [get_ec2_instance_resource] with the result of
    [boto3_resource.Instance(instance_id)] left open: the [try] statement
    and the [return resource] after it. *)
Definition get_ec2_instance_resource_from {P} (made : outcome ec2_Instance)
  : M P (option ec2_Instance) :=
  let* after_try :=
    try_except
      (let* resource := lift made in
       ret (Continues (Some resource)))
      (fun e =>
         if isinstance e ClientError then
           Some (logger_error
                   ("Error getting EC2 instance resource: " +:+ exn_str e);;
                 ret (Returns None))
         else if isinstance e ValueError then
           Some (if contains "Required parameter" (exn_str e)
                 then
                   logger_error
                     "No instance ID was found for the lookup operation";;
                   ret (Returns None)
                 else ret (Continues None))
         else None) in
  match after_try with
  | Returns r => ret r
  | Continues (Some resource) => ret (Some resource)
  | Continues None =>
      raise (mk_exn UnboundLocalError
               "cannot access local variable 'resource' where it is not associated with a value"
               None "" "")
  end.

(** The error of [get_instance_public_ip] for an address that is [None]. *)
Definition no_public_ip : exn :=
  mk_exn Exception "No public IP address found" None "" "".

(** Reads of the address of [i], each followed by the sleep of its delay. *)
Fixpoint polls (i : string) (ds : list N) : list api_call :=
  match ds with
  | [] => []
  | d :: ds' => GetPublicIpAddress i :: Sleep d :: polls i ds'
  end.

(** The calls of a [start_instance] that runs to its end, for the instance
    [i], the group [g] and [k] reads that found the address absent. *)
Definition start_calls (instance_name my_ip i g : string) (k : nat)
  : list api_call :=
  [DescribeInstances instance_name; Start i; WaitUntilRunning i;
   GetSecurityGroups i; GetSecurityGroups i;
   AuthorizeIngress g (ip_permissions_for my_ip)]
  ++ polls i (take k default_delays) ++ [GetPublicIpAddress i].

(** The calls that ask the provider for nothing but information, and the
    client's sleeps. *)
Definition reads_only (c : api_call) : bool :=
  match c with
  | DescribeInstances _ | GetSecurityGroups _ | GetPublicIpAddress _
  | GetStateName _ | Sleep _ => true
  | _ => false
  end.

(** The address of [i] is reported absent at the read made in state [p], and
    at each read that follows after the client has slept the delays [ds]. *)
Fixpoint absent_along {P} (aws : provider P) (i : string) (ds : list N) (p : P)
  : Prop :=
  match instance_public_ip_address aws i p with
  | (Return None, p1) =>
      match ds with
      | [] => True
      | d :: ds' => absent_along aws i ds' (elapse aws d p1)
      end
  | _ => False
  end.

(** ** cli.py

    The commands, over the world of [ec2.py] and the lines written by
    [typer.echo]. *)
Section cli.
Context {P : Type}.
Variable aws : provider P.
(** [get('https://api.ipify.org').content.decode('utf8')] *)
Variable get_my_ip : world P → outcome string * world P.

Definition typer_echo (line : string) (t : world P * list string)
  : outcome unit * (world P * list string) :=
  (Return tt, (t.1, t.2 ++ [line])).

Definition start (instance_name : string) (t : world P * list string)
  : outcome unit * (world P * list string) :=
  match get_my_ip t.1 with
  | (Raise e, w) => (Raise e, (w, t.2))
  | (Return ip, w) =>
      match start_instance aws instance_name ip w with
      | (Raise e, w1) => (Raise e, (w1, t.2))
      | (Return (id, public_ip), w1) =>
          typer_echo ("Started instance " +:+ instance_name +:+ " ("
                      +:+ fmt id +:+ ") at " +:+ fmt public_ip)
                     (w1, t.2)
      end
  end.

Definition stop (instance_name : string) (t : world P * list string)
  : outcome unit * (world P * list string) :=
  match stop_instance aws instance_name t.1 with
  | (Raise e, w1) => (Raise e, (w1, t.2))
  | (Return id, w1) =>
      typer_echo ("Stopped instance " +:+ instance_name +:+ " ("
                  +:+ fmt id +:+ ")")
                 (w1, t.2)
  end.

Definition status (instance_name : string) (t : world P * list string)
  : outcome unit * (world P * list string) :=
  match get_instance_status aws instance_name t.1 with
  | (Raise e, w1) => (Raise e, (w1, t.2))
  | (Return (status, ip), w1) =>
      typer_echo ("Instance " +:+ instance_name +:+ " is " +:+ fmt status
                  +:+ " at IP " +:+ fmt ip)
                 (w1, t.2)
  end.

Definition reboot (instance_name : string) (t : world P * list string)
  : outcome unit * (world P * list string) :=
  match reboot_instance aws instance_name t.1 with
  | (Raise e, w1) => (Raise e, (w1, t.2))
  | (Return id, w1) =>
      typer_echo ("Rebooted instance " +:+ instance_name +:+ " ("
                  +:+ fmt id +:+ ")")
                 (w1, t.2)
  end.
End cli.

(** ** More to run the operations on *)

(** The machine named devbox in no group. *)
Definition set_groups (gs : list string) (v : vm) : vm :=
  {| vm_id := vm_id v; vm_name := vm_name v; vm_state := vm_state v;
     vm_address := vm_address v; vm_absent := vm_absent v;
     vm_groups := gs |}.

Definition ungrouped_devbox : cloud :=
  {| vms := [set_groups [] devbox]; rule_sets := {[ "sg-1" := [] ]} |}.

(** A lookup of the caller's address that answers. *)
Definition lookup_answers {P} (w : world P) : outcome string * world P :=
  (Return "198.51.100.7", w).

(** An operation that is interrupted on its second invocation. *)
Definition interrupted : exn := mk_exn KeyboardInterrupt "" None "" "".

Definition interrupted_later (n : nat) : outcome (option string) * nat :=
  match n with
  | O => (Raise not_yet, S n)
  | _ => (Raise interrupted, S n)
  end.

(** * Properties of the retry wrapper *)

Section retry_facts.
Context {St A : Type}.
Variable none : A.
Variable exception : exn_class.
Variable function : St → outcome A * St.

Local Abbreviation fails := (fails_with function).
Local Abbreviation run := (run_retry none exception function).
Local Abbreviation oloop := (obs_loop none exception function).



(** One attempt that succeeds ends the loop, whatever is left of the
    schedule. *)
Lemma obs_loop_success delay schedule problems s t v s' :
  function s = (Return v, s') →
  oloop (delay :: schedule) problems (s, t) = (Return v, (s', t ++ [EvCall])).
Proof.
  intros Hf. unfold obs_loop. simpl. unfold obs_function. simpl.
  rewrite Hf. reflexivity.
Qed.

(** One attempt that fails with an error the wrapper does not retry. *)
Lemma obs_loop_not_retried delay schedule problems s t e s' :
  function s = (Raise e, s') →
  retried exception e = false →
  oloop (delay :: schedule) problems (s, t) = (Raise e, (s', t ++ [EvCall])).
Proof.
  intros Hf Hr. unfold obs_loop. simpl. unfold obs_function. simpl.
  rewrite Hf. unfold retried in Hr.
  destruct (isinstance e exception); [|reflexivity].
  destruct (code_is_403 e); [reflexivity | discriminate].
Qed.

(** One attempt that fails with a retried error while a delay is left,
    a delay that [time.sleep] accepts. *)
Lemma obs_loop_retry d schedule problems s t e s' :
  function s = (Raise e, s') →
  retried exception e = true →
  sleep_accepts d = true →
  oloop (Some d :: schedule) problems (s, t)
  = oloop schedule (problems ++ [e]) (s', t ++ round e d).
Proof.
  intros Hf Hr Hd. unfold obs_loop. simpl. unfold obs_function. simpl.
  rewrite Hf. unfold retried in Hr.
  apply andb_prop in Hr as [Hi Hc]. rewrite Hi.
  destruct (code_is_403 e); [discriminate|].
  unfold obs_sleep, obs_report, round. rewrite Hd. simpl.
  rewrite <- !app_assoc. reflexivity.
Qed.

(** The same with a delay that [time.sleep] does not accept: its error
    leaves the wrapper. *)
Lemma obs_loop_sleep_raises d schedule problems s t e s' :
  function s = (Raise e, s') →
  retried exception e = true →
  sleep_accepts d = false →
  oloop (Some d :: schedule) problems (s, t)
  = (Raise overflow_error, (s', t ++ round e d)).
Proof.
  intros Hf Hr Hd. unfold obs_loop. simpl. unfold obs_function. simpl.
  rewrite Hf. unfold retried in Hr.
  apply andb_prop in Hr as [Hi Hc]. rewrite Hi.
  destruct (code_is_403 e); [discriminate|].
  unfold obs_sleep, obs_report, round. rewrite Hd. simpl.
  rewrite <- !app_assoc. reflexivity.
Qed.

(** The last attempt, when it fails with a retried error. *)
Lemma obs_loop_give_up schedule problems s t e s' :
  function s = (Raise e, s') →
  retried exception e = true →
  oloop (None :: schedule) problems (s, t)
  = (Raise e,
     (s', t ++ [EvCall; EvReport (RetryFailedDefinitely (problems ++ [e]))])).
Proof.
  intros Hf Hr. unfold obs_loop. simpl. unfold obs_function. simpl.
  rewrite Hf. unfold retried in Hr.
  apply andb_prop in Hr as [Hi Hc]. rewrite Hi.
  destruct (code_is_403 e); [discriminate|].
  unfold obs_report. simpl. rewrite <- app_assoc. reflexivity.
Qed.

(** As many failed attempts as there are delays use the delays up, when
    [time.sleep] accepts the delays. *)
Lemma obs_loop_rounds es : ∀ ds schedule problems s t s',
  fails s es s' →
  Forall (fun e => retried exception e = true) es →
  Forall (fun d => sleep_accepts d = true) ds →
  length es = length ds →
  oloop (map Some ds ++ schedule) problems (s, t)
  = oloop schedule (problems ++ es) (s', t ++ rounds es ds).
Proof.
  induction es as [|e es IH];
    intros ds schedule problems s t s' Hf Hall Hacc Hlen.
  - destruct ds; [|discriminate]. inversion Hf; subst. simpl.
    rewrite !app_nil_r. reflexivity.
  - destruct ds as [|d ds]; [discriminate|].
    inversion Hf as [|? ? s1 ? ? Hcall Hrest]; subst.
    inversion Hall as [|? ? He Hall']; subst.
    inversion Hacc as [|? ? Hd Hacc']; subst.
    change (map Some (d :: ds) ++ schedule)
      with (Some d :: (map Some ds ++ schedule)).
    rewrite (obs_loop_retry _ _ _ _ _ _ _ Hcall He Hd).
    rewrite (IH ds schedule (problems ++ [e]) s1 _ s' Hrest Hall' Hacc');
      [|simpl in Hlen; congruence].
    rewrite <- !app_assoc. reflexivity.
Qed.

Lemma rounds_take (es : list exn) : ∀ ds : list N,
  (length es ≤ length ds)%nat → rounds es (take (length es) ds) = rounds es ds.
Proof.
  induction es as [|e es IH]; intros ds Hlen; [reflexivity|].
  destruct ds as [|d ds]; simpl in *; [lia|].
  rewrite IH; [reflexivity | lia].
Qed.

Lemma invocations_app t1 t2 :
  invocations (t1 ++ t2) = invocations t1 + invocations t2.
Proof.
  induction t1 as [|[] t1 IH]; simpl; auto.
Qed.

Lemma invocations_rounds (es : list exn) : ∀ ds : list N,
  (length es ≤ length ds)%nat → invocations (rounds es ds) = length es.
Proof.
  induction es as [|e es IH]; intros ds Hlen; [reflexivity|].
  destruct ds as [|d ds]; simpl in *; [lia|].
  rewrite IH; [reflexivity | lia].
Qed.

(** The schedule after [k] delays have been used. *)
Lemma chain_split (D : list N) k :
  chain D [None] = map Some (take k D) ++ chain (drop k D) [None].
Proof.
  unfold chain. rewrite app_assoc, <- map_app, take_drop. reflexivity.
Qed.

Lemma chain_cons (D : list N) :
  ∃ delay schedule, chain D [None] = delay :: schedule.
Proof. destruct D; simpl; eauto. Qed.

(** Failures that the wrapper retries, then whatever the next attempt
    does, as long as delays are left for the failures, delays that
    [time.sleep] accepts. *)
Lemma run_retry_prefix D s es s1 :
  fails s es s1 →
  Forall (fun e => retried exception e = true) es →
  (length es ≤ length D)%nat →
  Forall (fun d => sleep_accepts d = true) (take (length es) D) →
  run D s = oloop (chain (drop (length es) D) [None]) es (s1, rounds es D).
Proof.
  intros Hf Hall Hlen Hacc. unfold run_retry, retry.
  rewrite (chain_split D (length es)).
  change (loop obs_sleep none exception obs_report (obs_function function))
    with oloop.
  rewrite (obs_loop_rounds es (take (length es) D) _ [] s [] s1 Hf Hall Hacc).
  - rewrite rounds_take by exact Hlen. reflexivity.
  - rewrite length_take. lia.
Qed.
End retry_facts.




(** A first attempt that fails with an error whose [code] is 403, caught by
    the [except] clause or not: the operation has been invoked once, and
    nothing was reported or slept. *)
Lemma retry_403_first_attempt
  {St A : Type} (none : A) (exception : exn_class)
  (function : St → outcome A * St) (D : list N)
  (s : St) (e : exn) (s1 : St) :
  function s = (Raise e, s1) →
  exn_code e = Some 403%Z →
  run_retry none exception function D s = (Raise e, (s1, [EvCall])).
Proof.
  intros Hf Hcode. unfold run_retry, retry.
  destruct (chain_cons D) as (delay & schedule & ->).
  apply (obs_loop_not_retried none exception function delay schedule [] s []).
  - exact Hf.
  - unfold retried, code_is_403. rewrite Hcode. simpl. apply andb_false_r.
Qed.

(** C2.  An attempt that fails with an error whose [code] is 403, whatever
    the delays are and however many of them are left: the wrapper raises that
    error and the run ends with that attempt, with no report, no sleep and no
    further attempt after it.  The attempts before it, [k] of them, failed
    with errors that were retried, and [time.sleep] accepted the delays after
    them (there is none when the 403 comes at the first attempt); the
    operation has been invoked [k + 1] times, that is once when the 403 comes
    at the first attempt. *)
Theorem retry_403_is_raised_at_once
  {St A : Type} (none : A) (exception : exn_class)
  (function : St → outcome A * St) (D : list N)
  (s : St) (es : list exn) (s1 : St) (e : exn) (s2 : St) :
  fails_with function s es s1 →
  Forall (fun e => retried exception e = true) es →
  (length es ≤ length D)%nat →
  Forall (fun d => sleep_accepts d = true) (take (length es) D) →
  function s1 = (Raise e, s2) →
  exn_code e = Some 403%Z →
  run_retry none exception function D s
  = (Raise e, (s2, rounds es D ++ [EvCall]))
  ∧ invocations (rounds es D ++ [EvCall]) = S (length es)
  ∧ (es = [] → rounds es D ++ [EvCall] = [EvCall]).
Proof.
  intros Hf Hall Hlen Hacc Hcall Hcode. split; [|split].
  - rewrite (run_retry_prefix none exception function D s es s1
               Hf Hall Hlen Hacc).
    destruct (chain_cons (drop (length es) D)) as (delay & schedule & ->).
    apply obs_loop_not_retried; [exact Hcall|].
    unfold retried, code_is_403. rewrite Hcode. simpl. apply andb_false_r.
  - rewrite invocations_app, invocations_rounds by exact Hlen. simpl. lia.
  - intros ->. reflexivity.
Qed.

Lemma retry_403_is_raised_at_once_witness :
  run_retry None Exception denied default_delays 0%nat
  = (Raise forbidden, (1%nat, rounds [] default_delays ++ [EvCall]))
  ∧ invocations (rounds [] default_delays ++ [EvCall]) = 1%nat
  ∧ (@nil exn = [] → rounds [] default_delays ++ [EvCall] = [EvCall]).
Proof.
  apply (retry_403_is_raised_at_once None Exception denied default_delays
           0%nat [] 0%nat forbidden 1%nat).
  - apply fails_nil.
  - constructor.
  - simpl. lia.
  - constructor.
  - reflexivity.
  - reflexivity.
Defined.




(** C9.  Without delays the wrapper makes one attempt and never sleeps.  What
    the attempt does is what the wrapper does: a value is returned, an error
    is raised again, with or without a [code] of 403; an error that the
    wrapper would have retried is first reported as the terminal failure. *)
Theorem retry_without_delays
  {St A : Type} (none : A) (exception : exn_class)
  (function : St → outcome A * St) (s : St) (r : outcome A) (s1 : St) :
  function s = (r, s1) →
  ∃ tr,
    run_retry none exception function [] s = (r, (s1, tr))
    ∧ invocations tr = 1%nat
    ∧ sleeps tr = []
    ∧ reports tr
      = match r with
        | Raise e =>
            if retried exception e then [RetryFailedDefinitely [e]] else []
        | Return _ => []
        end.
Proof.
  intros Hf. unfold run_retry, retry.
  change (chain [] [None]) with [@None N].
  change (loop obs_sleep none exception obs_report (obs_function function))
    with (obs_loop none exception function).
  destruct r as [v|e].
  - rewrite (obs_loop_success none exception function _ _ _ _ _ _ _ Hf).
    eexists. split; [reflexivity|]. repeat split.
  - destruct (retried exception e) eqn:Hr.
    + rewrite (obs_loop_give_up none exception function _ _ _ _ _ _ Hf Hr).
      eexists. split; [reflexivity|]. repeat split.
    + rewrite (obs_loop_not_retried none exception function _ _ _ _ _ _ _ Hf Hr).
      eexists. split; [reflexivity|]. repeat split.
Qed.

Lemma retry_without_delays_witness :
  ∃ tr,
    run_retry None Exception (flaky 1) [] 0%nat = (Raise not_yet, (1%nat, tr))
    ∧ invocations tr = 1%nat
    ∧ sleeps tr = []
    ∧ reports tr = [RetryFailedDefinitely [not_yet]].
Proof.
  apply (retry_without_delays None Exception (flaky 1) 0%nat
           (Raise not_yet) 1%nat).
  reflexivity.
Defined.

(** * Properties of the EC2 operations *)

Section ec2_facts.
Context {P : Type}.
Variable aws : provider P.

Lemma bind_returns {A B} (m : M P A) (k : A → M P B) w v w' :
  bind m k w = (Return v, w') →
  ∃ x w1, m w = (Return x, w1) ∧ k x w1 = (Return v, w').
Proof.
  unfold bind. destruct (m w) as [[x|e] w1]; [eauto | discriminate].
Qed.

Lemma bind_step {A B} (m : M P A) (k : A → M P B) w x w1 :
  m w = (Return x, w1) → bind m k w = k x w1.
Proof. intros H. unfold bind. rewrite H. reflexivity. Qed.

Lemma bind_raises {A B} (m : M P A) (k : A → M P B) w e w1 :
  m w = (Raise e, w1) → bind m k w = (Raise e, w1).
Proof. intros H. unfold bind. rewrite H. reflexivity. Qed.

(** What the locator does with each answer to its query. *)
Lemma locator_cases instance_name (w : world P) :
  get_ec2_instance_id_by_name aws instance_name w
  = match describe_instances aws instance_name (remote w) with
    | (Return Reservations, p) =>
        let w1 := mk_world p (calls w ++ [DescribeInstances instance_name])
                           (records w) in
        match Reservations with
        | [] =>
            (Return None,
             log ERROR (Str ("No EC2 instance found by name: " +:+ instance_name))
                 w1)
        | [r] =>
            match Instances r with
            | i :: _ => (Return (Some (InstanceId i)), w1)
            | [] => (Raise (mk_exn IndexError "list index out of range"
                                   None "" ""), w1)
            end
        | _ :: _ :: _ =>
            (Return None,
             log ERROR
                 (Str ("Multiple EC2 instances found by name: " +:+ instance_name))
                 w1)
        end
    | (Raise e, p) =>
        let w1 := mk_world p (calls w ++ [DescribeInstances instance_name])
                           (records w) in
        if isinstance e Exception then
          (Return None,
           log ERROR
               (Str ("Error getting EC2 instance by name: " +:+ instance_name
                     +:+ ": " +:+ exn_str e)) w1)
        else (Raise e, w1)
    end.
Proof.
  unfold get_ec2_instance_id_by_name, bind, try_except, call, ret.
  destruct (describe_instances aws instance_name (remote w)) as [[rs|e] p].
  - destruct rs as [|r [|r' rs]]; try reflexivity.
    simpl. unfold lift, index0. destruct (Instances r); reflexivity.
  - destruct (isinstance e Exception); reflexivity.
Qed.

Lemma locator_calls instance_name (w : world P) :
  calls (get_ec2_instance_id_by_name aws instance_name w).2
  = calls w ++ [DescribeInstances instance_name].
Proof.
  rewrite locator_cases.
  destruct (describe_instances aws instance_name (remote w)) as [[rs|e] p].
  - destruct rs as [|r [|r' rs]]; try reflexivity.
    simpl. destruct (Instances r); reflexivity.
  - destruct (isinstance e Exception); reflexivity.
Qed.

Lemma locator_unresolved instance_name (w : world P) :
  unresolved aws instance_name (remote w) = true →
  ∃ w1,
    get_ec2_instance_id_by_name aws instance_name w = (Return None, w1)
    ∧ calls w1 = calls w ++ [DescribeInstances instance_name].
Proof.
  intros H. unfold unresolved in H. rewrite locator_cases.
  destruct (describe_instances aws instance_name (remote w)) as [[rs|e] p].
  - destruct rs as [|r [|r' rs]]; [| discriminate |]; eexists; split;
      reflexivity.
  - rewrite H. eexists; split; reflexivity.
Qed.

(** The resource of an identifier, and of none. *)
Lemma resource_of_id i (w : world P) :
  get_ec2_instance_resource (Some i) w = (Return (Some {| resource_id := i |}), w).
Proof. reflexivity. Qed.

Lemma resource_of_none (w : world P) :
  get_ec2_instance_resource None w
  = (Return None,
     log ERROR (Str "No instance ID was found for the lookup operation") w).
Proof. reflexivity. Qed.

End ec2_facts.

(** The locator, by the number of reservations in the answer to its query:
    no reservation, no result; one reservation, the identifier of its first
    instance; more than one reservation, no result. *)
Lemma locator_by_reservations
  {P : Type} (aws : provider P) (instance_name : string) (w : world P)
  (Reservations : list reservation) (p : P) :
  describe_instances aws instance_name (remote w) = (Return Reservations, p) →
  (Reservations = [] →
   (get_ec2_instance_id_by_name aws instance_name w).1 = Return None)
  ∧ (∀ r i rest,
       Reservations = [r] → Instances r = i :: rest →
       (get_ec2_instance_id_by_name aws instance_name w).1
       = Return (Some (InstanceId i)))
  ∧ ((1 < length Reservations)%nat →
     (get_ec2_instance_id_by_name aws instance_name w).1 = Return None)
  ∧ (∀ id,
       (get_ec2_instance_id_by_name aws instance_name w).1 = Return (Some id) →
       ∃ r i rest,
         Reservations = [r] ∧ Instances r = i :: rest ∧ id = InstanceId i).
Proof.
  intros Hq. rewrite locator_cases, Hq. split; [|split; [|split]].
  - intros ->. reflexivity.
  - intros r i rest -> Hi. simpl. rewrite Hi. reflexivity.
  - intros Hlen. destruct Reservations as [|r [|r' rs]]; simpl in Hlen;
      [lia | lia | reflexivity].
  - intros id Hid. destruct Reservations as [|r [|r' rs]]; simpl in Hid;
      [discriminate | | discriminate].
    destruct (Instances r) as [|i rest] eqn:Hi; simpl in Hid; [discriminate|].
    exists r, i, rest. split; [reflexivity|]. split; [exact Hi | congruence].
Qed.

Lemma locator_by_reservations_witness :
  (get_ec2_instance_id_by_name reference "devbox" (empty_world one_devbox)).1
  = Return (Some "i-0123")
  ∧ (get_ec2_instance_id_by_name reference "devbox" (empty_world two_devboxes)).1
    = Return None.
Proof.
  split.
  - exact (proj1 (proj2 (locator_by_reservations reference "devbox"
                           (empty_world one_devbox) _ one_devbox eq_refl))
             _ _ [] eq_refl eq_refl).
  - apply (proj1 (proj2 (proj2 (locator_by_reservations reference "devbox"
                           (empty_world two_devboxes) _ two_devboxes eq_refl)))).
    simpl. lia.
Defined.

(** C4.  The locator does pick an identifier when the name is ambiguous
    within one reservation: for an answer of one reservation that holds two
    instances or more under the name, it returns the identifier of the first
    of them and logs nothing.  The test for "Multiple EC2 instances found by
    name" counts the reservations, not the instances. *)
Theorem locator_picks_first_of_reservation
  {P : Type} (aws : provider P) (instance_name : string) (w : world P)
  (r : reservation) (i1 i2 : instance_description)
  (rest : list instance_description) (p : P) :
  describe_instances aws instance_name (remote w) = (Return [r], p) →
  Instances r = i1 :: i2 :: rest →
  get_ec2_instance_id_by_name aws instance_name w
  = (Return (Some (InstanceId i1)),
     mk_world p (calls w ++ [DescribeInstances instance_name]) (records w)).
Proof.
  intros Hq Hi. rewrite locator_cases, Hq. cbn beta iota zeta.
  rewrite Hi. reflexivity.
Qed.

Lemma locator_picks_first_of_reservation_witness :
  get_ec2_instance_id_by_name together "devbox" (empty_world two_devboxes)
  = (Return (Some "i-0123"),
     mk_world two_devboxes [DescribeInstances "devbox"] []).
Proof.
  exact (locator_picks_first_of_reservation together "devbox"
           (empty_world two_devboxes)
           {| Instances := [ {| InstanceId := "i-0123" |};
                             {| InstanceId := "i-0456" |} ] |}
           {| InstanceId := "i-0123" |} {| InstanceId := "i-0456" |} []
           two_devboxes eq_refl eq_refl).
Defined.

(** A reservation without instances makes the locator fail at its
    indexing. *)
Lemma locator_empty_reservation
  {P : Type} (aws : provider P) (instance_name : string) (w : world P) (p : P) :
  describe_instances aws instance_name (remote w)
  = (Return [ {| Instances := [] |} ], p) →
  ∃ e, (get_ec2_instance_id_by_name aws instance_name w).1 = Raise e
       ∧ exn_cls e = IndexError.
Proof.
  intros Hq. rewrite locator_cases, Hq. simpl. eexists. split; reflexivity.
Qed.

(** C5.  A name that does not resolve: start, stop, reboot and status return
    their null result, and the only call made to the provider is the
    locator's query; no start, stop or reboot is sent. *)
Theorem unresolved_name_aborts
  {P : Type} (aws : provider P) (instance_name my_ip : string) (w : world P) :
  unresolved aws instance_name (remote w) = true →
  ((start_instance aws instance_name my_ip w).1 = Return (None, None)
   ∧ calls (start_instance aws instance_name my_ip w).2
     = calls w ++ [DescribeInstances instance_name])
  ∧ ((stop_instance aws instance_name w).1 = Return None
     ∧ calls (stop_instance aws instance_name w).2
       = calls w ++ [DescribeInstances instance_name])
  ∧ ((reboot_instance aws instance_name w).1 = Return None
     ∧ calls (reboot_instance aws instance_name w).2
       = calls w ++ [DescribeInstances instance_name])
  ∧ ((get_instance_status aws instance_name w).1 = Return (None, None)
     ∧ calls (get_instance_status aws instance_name w).2
       = calls w ++ [DescribeInstances instance_name]).
Proof.
  intros H.
  set (w0 := log INFO
               (Str ("1. Getting EC2 Instance by name " +:+ instance_name
                     +:+ "...")) w).
  destruct (locator_unresolved aws instance_name w0 H) as (w1 & Hloc & Hc1).
  destruct (locator_unresolved aws instance_name w H) as (w2 & Hloc2 & Hc2).
  assert (Hinfo : ∀ s, @logger_info P s w = (Return tt, log INFO (Str s) w))
    by reflexivity.
  repeat split.
  - unfold start_instance.
    rewrite (bind_step _ _ _ _ _ (Hinfo _)), (bind_step _ _ _ _ _ Hloc),
      (bind_step _ _ _ _ _ (resource_of_none w1)). reflexivity.
  - unfold start_instance.
    rewrite (bind_step _ _ _ _ _ (Hinfo _)), (bind_step _ _ _ _ _ Hloc),
      (bind_step _ _ _ _ _ (resource_of_none w1)). exact Hc1.
  - unfold stop_instance.
    rewrite (bind_step _ _ _ _ _ (Hinfo _)), (bind_step _ _ _ _ _ Hloc),
      (bind_step _ _ _ _ _ (resource_of_none w1)). reflexivity.
  - unfold stop_instance.
    rewrite (bind_step _ _ _ _ _ (Hinfo _)), (bind_step _ _ _ _ _ Hloc),
      (bind_step _ _ _ _ _ (resource_of_none w1)). exact Hc1.
  - unfold reboot_instance.
    rewrite (bind_step _ _ _ _ _ (Hinfo _)), (bind_step _ _ _ _ _ Hloc),
      (bind_step _ _ _ _ _ (resource_of_none w1)). reflexivity.
  - unfold reboot_instance.
    rewrite (bind_step _ _ _ _ _ (Hinfo _)), (bind_step _ _ _ _ _ Hloc),
      (bind_step _ _ _ _ _ (resource_of_none w1)). exact Hc1.
  - unfold get_instance_status.
    rewrite (bind_step _ _ _ _ _ Hloc2),
      (bind_step _ _ _ _ _ (resource_of_none w2)). reflexivity.
  - unfold get_instance_status.
    rewrite (bind_step _ _ _ _ _ Hloc2),
      (bind_step _ _ _ _ _ (resource_of_none w2)). exact Hc2.
Qed.

Lemma unresolved_name_aborts_witness :
  (stop_instance reference "nobody" (empty_world one_devbox)).1 = Return None
  ∧ calls (stop_instance reference "nobody" (empty_world one_devbox)).2
    = [DescribeInstances "nobody"].
Proof.
  exact (proj1 (proj2 (unresolved_name_aborts reference "nobody" "198.51.100.7"
                         (empty_world one_devbox) eq_refl))).
Defined.

(** C6.  The status of an instance that resolves, by the state the provider
    reports.  When it is "stopped" the result is ("stopped", "0.0.0.0") and
    the calls made are the locator's query and the read of the state: the
    address is not read.  For another state the address is fetched with the
    decorated [get_instance_public_ip], the state is read again, and the
    state name is returned with the address; an error of the fetch is
    raised. *)
Theorem status_by_reported_state
  {P : Type} (aws : provider P) (instance_name : string) (w w1 : world P)
  (i state_Name : string) (p : P) :
  get_ec2_instance_id_by_name aws instance_name w = (Return (Some i), w1) →
  instance_state_Name aws i (remote w1) = (Return state_Name, p) →
  let w2 := mk_world p (calls w1 ++ [GetStateName i]) (records w1) in
  (state_Name = "stopped" →
   get_instance_status aws instance_name w
   = (Return (Some "stopped", Some "0.0.0.0"), w2)
   ∧ calls w2 = calls w ++ [DescribeInstances instance_name; GetStateName i])
  ∧ (state_Name ≠ "stopped" →
     (∀ public_ip w3 state_Name' p',
        get_instance_public_ip aws {| resource_id := i |} w2
        = (Return public_ip, w3) →
        instance_state_Name aws i (remote w3) = (Return state_Name', p') →
        get_instance_status aws instance_name w
        = (Return (Some state_Name', public_ip),
           mk_world p' (calls w3 ++ [GetStateName i]) (records w3)))
     ∧ (∀ e w3,
          get_instance_public_ip aws {| resource_id := i |} w2 = (Raise e, w3) →
          get_instance_status aws instance_name w = (Raise e, w3))).
Proof.
  intros Hloc Hstate w2.
  assert (Hread : call (GetStateName i) (instance_state_Name aws i) w1
                  = (Return state_Name, w2)).
  { unfold call. rewrite Hstate. reflexivity. }
  assert (Hstatus : get_instance_status aws instance_name w
                    = (if String.eqb state_Name "stopped"
                       then ret (Some "stopped", Some "0.0.0.0")
                       else
                         let* public_ip :=
                           get_instance_public_ip aws {| resource_id := i |} in
                         let* state_Name' :=
                           call (GetStateName i) (instance_state_Name aws i) in
                         ret (Some state_Name', public_ip)) w2).
  { unfold get_instance_status.
    rewrite (bind_step _ _ _ _ _ Hloc), (bind_step _ _ _ _ _ (resource_of_id i w1)).
    simpl resource_id. rewrite (bind_step _ _ _ _ _ Hread). reflexivity. }
  split.
  - intros ->. split; [exact Hstatus|].
    simpl. pose proof (locator_calls aws instance_name w) as Hc.
    rewrite Hloc in Hc. simpl in Hc. rewrite Hc, <- app_assoc. reflexivity.
  - intros Hne. apply String.eqb_neq in Hne. rewrite Hne in Hstatus. split.
    + intros public_ip w3 state_Name' p' Hfetch Hagain.
      rewrite Hstatus, (bind_step _ _ _ _ _ Hfetch).
      unfold bind, call, ret. rewrite Hagain. reflexivity.
    + intros e w3 Hfetch. rewrite Hstatus. apply bind_raises. exact Hfetch.
Qed.

Lemma status_by_reported_state_witness :
  get_instance_status reference "devbox" (empty_world one_devbox)
  = (Return (Some "stopped", Some "0.0.0.0"),
     mk_world one_devbox [DescribeInstances "devbox"; GetStateName "i-0123"] [])
  ∧ calls (mk_world one_devbox
                    [DescribeInstances "devbox"; GetStateName "i-0123"] [])
    = [DescribeInstances "devbox"; GetStateName "i-0123"].
Proof.
  exact (proj1 (status_by_reported_state reference "devbox"
                  (empty_world one_devbox)
                  (mk_world one_devbox [DescribeInstances "devbox"] [])
                  "i-0123" "stopped" one_devbox eq_refl eq_refl) eq_refl).
Defined.

(** What the authorizer does with each answer of the provider. *)
Lemma authorize_cases
  {P : Type} (aws : provider P) (sg : SecurityGroup) (ip : string) (w : world P) :
  authorize_ingress aws (Some sg) ip w
  = match group_authorize_ingress aws (group_id sg) (ip_permissions_for ip)
                                  (remote w) with
    | (r, p) =>
        let w1 := mk_world p
                    (calls w ++ [AuthorizeIngress (group_id sg)
                                                  (ip_permissions_for ip)])
                    (records w) in
        match r with
        | Return response => (Return (Some response), w1)
        | Raise err =>
            if isinstance err ClientError then
              if String.eqb (error_Code err) duplicate_code then
                (Return None,
                 log INFO (Str "Inbound rules already exist. Nothing to do.") w1)
              else
                (Raise err,
                 log ERROR
                     (Str ("Couldn't authorize inbound rules for "
                           +:+ group_id sg +:+ ". Here's why: "
                           +:+ error_Code err +:+ ": " +:+ error_Message err))
                     w1)
            else (Raise err, w1)
        end
    end.
Proof.
  unfold authorize_ingress, try_except, bind, call, ret.
  destruct (group_authorize_ingress aws (group_id sg) (ip_permissions_for ip)
                                    (remote w)) as [[response|err] p].
  - reflexivity.
  - destruct (isinstance err ClientError); [|reflexivity].
    destruct (String.eqb (error_Code err) duplicate_code); reflexivity.
Qed.

(** The authorizer returns exactly when the provider took the request. *)
Lemma authorize_returns_granted
  {P : Type} (aws : provider P) (sg : SecurityGroup) (ip : string) (w : world P) :
  (∃ r w1, authorize_ingress aws (Some sg) ip w = (Return r, w1)
           ∧ granted aws (group_id sg) (ip_permissions_for ip)
                     (remote w) (remote w1))
  ∨ (∃ e w1, authorize_ingress aws (Some sg) ip w = (Raise e, w1)
             ∧ is_duplicate e = false
             ∧ ¬ ∃ p', granted aws (group_id sg) (ip_permissions_for ip)
                               (remote w) p').
Proof.
  rewrite authorize_cases. unfold granted, is_duplicate.
  destruct (group_authorize_ingress aws (group_id sg) (ip_permissions_for ip)
                                    (remote w)) as [[response|err] p].
  - left. eexists _, _. split; reflexivity.
  - destruct (isinstance err ClientError) eqn:Hi.
    + destruct (String.eqb (error_Code err) duplicate_code) eqn:Hd.
      * left. eexists _, _. split; [reflexivity|]. simpl. auto.
      * right. eexists _, _. split; [reflexivity|].
        split; [rewrite Hi, Hd; reflexivity|].
        intros (p' & Hg & _). discriminate.
    + right. eexists _, _. split; [reflexivity|].
      split; [rewrite Hi; reflexivity|].
      intros (p' & Hg & _). discriminate.
Qed.

(** C7.  With a provider whose rule sets keep their rules, an authorizer
    call that succeeded succeeds again when repeated with the same rule set
    and address; and no call of the authorizer raises the provider's
    duplicate-permission error. *)
Theorem authorize_ingress_twice
  {P : Type} (aws : provider P) (security_group : option SecurityGroup)
  (ssh_ingress_ip : string) (w w1 : world P) (r : option authorize_response) :
  keeps_rules aws →
  authorize_ingress aws security_group ssh_ingress_ip w = (Return r, w1) →
  (∃ r' w2,
     authorize_ingress aws security_group ssh_ingress_ip w1 = (Return r', w2))
  ∧ (∀ w0 e w',
       authorize_ingress aws security_group ssh_ingress_ip w0 = (Raise e, w') →
       is_duplicate e = false).
Proof.
  intros Hkeeps Hfirst. destruct security_group as [sg|].
  - split.
    + destruct (authorize_returns_granted aws sg ssh_ingress_ip w)
        as [(r0 & w1' & Hret & Hg) | (e & w1' & Hraise & _)];
        [|rewrite Hraise in Hfirst; discriminate].
      rewrite Hret in Hfirst. injection Hfirst as <- <-.
      destruct (Hkeeps _ _ _ _ Hg) as (p'' & Hg').
      destruct (authorize_returns_granted aws sg ssh_ingress_ip w1')
        as [(r2 & w2 & Hret2 & _) | (e & w2 & _ & _ & Hno)].
      * eauto.
      * exfalso. apply Hno. eauto.
    + intros w0 e w' Hraise.
      destruct (authorize_returns_granted aws sg ssh_ingress_ip w0)
        as [(r0 & w1' & Hret & _) | (e' & w1' & Hraise' & Hd & _)].
      * rewrite Hret in Hraise. discriminate.
      * rewrite Hraise' in Hraise. injection Hraise as <- _. exact Hd.
  - split.
    + eexists _, _. reflexivity.
    + intros w0 e w' Hraise. discriminate.
Qed.

(** The reference provider keeps its rules. *)
Lemma reference_keeps_rules : keeps_rules reference.
Proof.
  intros g perms c c' Hg. unfold granted in *. simpl in *.
  unfold cloud_authorize in Hg.
  destruct (rule_sets c !! g) as [rules|] eqn:Hlook.
  - destruct (existsb (fun perm => bool_decide (perm ∈ rules)) perms) eqn:Hdup.
    + destruct Hg as [_ <-]. exists c. unfold cloud_authorize.
      rewrite Hlook, Hdup. split; reflexivity.
    + subst c'. unfold cloud_authorize at 1. simpl rule_sets.
      rewrite lookup_insert_eq.
      destruct (existsb (fun perm => bool_decide (perm ∈ rules ++ perms)) perms);
        eexists; [split; reflexivity | reflexivity].
  - destruct Hg as [Hd _]. discriminate.
Qed.

Lemma authorize_ingress_twice_witness :
  (∃ r' w2,
     authorize_ingress reference (Some {| group_id := "sg-1" |}) "198.51.100.7"
       (authorize_ingress reference (Some {| group_id := "sg-1" |})
          "198.51.100.7" (empty_world one_devbox)).2
     = (Return r', w2))
  ∧ (∀ w0 e w',
       authorize_ingress reference (Some {| group_id := "sg-1" |})
         "198.51.100.7" w0 = (Raise e, w') →
       is_duplicate e = false).
Proof.
  apply (authorize_ingress_twice reference (Some {| group_id := "sg-1" |})
           "198.51.100.7" (empty_world one_devbox) _
           (Some {| SecurityGroupRules := ip_permissions_for "198.51.100.7" |})
           reference_keeps_rules).
  reflexivity.
Defined.

(** On the reference provider, for a rule set that exists: the first call
    succeeds, the second one succeeds on the duplicate signal, and leaves the
    rules as the first call left them. *)
Lemma reference_authorize_twice
  (w : world cloud) (g ip : string) (rules : list ip_permission) :
  rule_sets (remote w) !! g = Some rules →
  ∃ r w1 w2,
    authorize_ingress reference (Some {| group_id := g |}) ip w = (Return r, w1)
    ∧ authorize_ingress reference (Some {| group_id := g |}) ip w1
      = (Return None, w2)
    ∧ remote w2 = remote w1.
Proof.
  intros Hlook. rewrite authorize_cases. simpl group_id.
  simpl group_authorize_ingress. unfold cloud_authorize at 1. rewrite Hlook.
  destruct (existsb (fun perm => bool_decide (perm ∈ rules))
                    (ip_permissions_for ip)) eqn:Hdup.
  - eexists _, _, _. split; [reflexivity|].
    rewrite authorize_cases. simpl. unfold cloud_authorize.
    rewrite Hlook, Hdup. split; reflexivity.
  - eexists _, _, _. split; [reflexivity|].
    rewrite authorize_cases. simpl. unfold cloud_authorize. simpl rule_sets.
    rewrite lookup_insert_eq. simpl existsb.
    rewrite bool_decide_eq_true_2; [split; reflexivity|].
    apply elem_of_app. right. apply list_elem_of_singleton. reflexivity.
Qed.

(** C8.  Without a rule set the authorizer logs that there is nothing to
    update and returns, with no call to the provider.  A [ClientError] of the
    provider whose code is not the duplicate signal is logged, with the
    provider's error code and message, and raised to the caller. *)
Theorem authorize_ingress_absent_or_failing
  {P : Type} (aws : provider P) (ssh_ingress_ip : string) (w : world P) :
  authorize_ingress aws None ssh_ingress_ip w
  = (Return None, log INFO (Str "No security group to update.") w)
  ∧ (∀ security_group err p,
       group_authorize_ingress aws (group_id security_group)
         (ip_permissions_for ssh_ingress_ip) (remote w) = (Raise err, p) →
       isinstance err ClientError = true →
       error_Code err ≠ duplicate_code →
       authorize_ingress aws (Some security_group) ssh_ingress_ip w
       = (Raise err,
          log ERROR
            (Str ("Couldn't authorize inbound rules for "
                  +:+ group_id security_group +:+ ". Here's why: "
                  +:+ error_Code err +:+ ": " +:+ error_Message err))
            (mk_world p
               (calls w ++ [AuthorizeIngress (group_id security_group)
                              (ip_permissions_for ssh_ingress_ip)])
               (records w)))).
Proof.
  split; [reflexivity|].
  intros sg err p Hcall Hi Hcode. rewrite authorize_cases, Hcall.
  cbn beta iota zeta. rewrite Hi. apply String.eqb_neq in Hcode. rewrite Hcode. reflexivity.
Qed.

Lemma authorize_ingress_absent_or_failing_witness :
  ∃ err w',
    authorize_ingress reference (Some {| group_id := "sg-9" |}) "198.51.100.7"
      (empty_world one_devbox) = (Raise err, w')
    ∧ error_Code err = "InvalidGroup.NotFound"
    ∧ records w'
      = [(ERROR,
          Str "Couldn't authorize inbound rules for sg-9. Here's why: InvalidGroup.NotFound: The security group 'sg-9' does not exist")].
Proof.
  eexists _, _. split; [|split].
  - apply (proj2 (authorize_ingress_absent_or_failing reference "198.51.100.7"
                    (empty_world one_devbox))
             {| group_id := "sg-9" |} _ one_devbox).
    + reflexivity.
    + reflexivity.
    + discriminate.
  - reflexivity.
  - reflexivity.
Defined.

(** A value that the wrapper returns is a value that the decorated function
    returned: the loop over a schedule that ends with [None] never falls off
    its end. *)
Lemma loop_returns
  {W A : Type} (sleep : N → W → outcome unit * W) (none : A)
  (exception : exn_class)
  (report : message → W → W) (function : W → outcome A * W)
  (schedule : list (option N)) :
  ∀ problems w v w',
    loop sleep none exception report function (schedule ++ [None]) problems w
    = (Return v, w') →
    ∃ w0, function w0 = (Return v, w').
Proof.
  induction schedule as [|delay schedule IH]; intros problems w v w' H; simpl in H.
  - destruct (function w) as [[x|e] w1] eqn:Hf.
    + injection H as <- <-. eauto.
    + destruct (isinstance e exception); [|discriminate].
      destruct (code_is_403 e); discriminate.
  - destruct (function w) as [[x|e] w1] eqn:Hf.
    + injection H as <- <-. eauto.
    + destruct (isinstance e exception); [|discriminate].
      destruct (code_is_403 e); [discriminate|].
      destruct delay as [d|]; [|discriminate].
      destruct (sleep d (report (RetryFailed e d) w1)) as [[[]|err] w2];
        [|discriminate].
      exact (IH _ _ _ _ H).
Qed.

Lemma retry_returns
  {W A : Type} (sleep : N → W → outcome unit * W) (none : A) (delays : list N)
  (exception : exn_class) (report : message → W → W)
  (function : W → outcome A * W) (w : W) (v : A) (w' : W) :
  retry sleep none delays exception report function w = (Return v, w') →
  ∃ w0, function w0 = (Return v, w').
Proof. apply loop_returns. Qed.

(** The undecorated fetch returns an address or raises. *)
Lemma public_ip_body_returns
  {P : Type} (aws : provider P) (instance_resource : ec2_Instance)
  (w : world P) (v : option string) (w' : world P) :
  get_instance_public_ip_body aws instance_resource w = (Return v, w') →
  ∃ ip, v = Some ip.
Proof.
  unfold get_instance_public_ip_body, bind, call, raise, ret.
  destruct (instance_public_ip_address aws (resource_id instance_resource)
                                       (remote w)) as [[[ip|]|e] p];
    intros H; try discriminate.
  injection H as <- _. eauto.
Qed.

Ltac bind_inv H :=
  let x := fresh "x" in
  let w := fresh "w" in
  let Hx := fresh "Hx" in
  apply bind_returns in H as (x & w & Hx & H).

(** C10.  The decorated fetch of the public address returns an address that
    is not null, or raises; and [start_instance] returns the null pair of
    the aborted start, or an instance identifier with an address that is not
    null, or raises. *)
Theorem public_ip_is_never_null {P : Type} (aws : provider P) :
  (∀ (instance_resource : ec2_Instance) (w : world P),
     (∃ ip w', get_instance_public_ip aws instance_resource w
               = (Return (Some ip), w'))
     ∨ (∃ e w', get_instance_public_ip aws instance_resource w = (Raise e, w')))
  ∧ (∀ (instance_name my_ip : string) (w : world P),
       (∃ w', start_instance aws instance_name my_ip w
              = (Return (None, None), w'))
       ∨ (∃ i ip w', start_instance aws instance_name my_ip w
                     = (Return (Some i, Some ip), w'))
       ∨ (∃ e w', start_instance aws instance_name my_ip w = (Raise e, w'))).
Proof.
  assert (Hfetch : ∀ (instance_resource : ec2_Instance) (w : world P) v w',
             get_instance_public_ip aws instance_resource w = (Return v, w') →
             ∃ ip, v = Some ip).
  { intros instance_resource w v w' H. unfold get_instance_public_ip in H.
    apply retry_returns in H as (w0 & H).
    exact (public_ip_body_returns aws instance_resource w0 v w' H). }
  split.
  - intros instance_resource w.
    destruct (get_instance_public_ip aws instance_resource w) as [[v|e] w'] eqn:H.
    + destruct (Hfetch _ _ _ _ H) as (ip & ->). left. eauto.
    + right. eauto.
  - intros instance_name my_ip w.
    destruct (start_instance aws instance_name my_ip w) as [[[a b]|e] w'] eqn:H;
      [|right; right; eauto].
    unfold start_instance in H.
    bind_inv H. bind_inv H. bind_inv H.
    destruct x1 as [instance|].
    + right. left.
      destruct x0 as [i|];
        [|rewrite resource_of_none in Hx1; discriminate].
      do 13 (bind_inv H).
      injection H as <- <- <-.
      match goal with
      | Hip : get_instance_public_ip _ _ _ = (Return ?v, _) |- _ =>
          destruct (Hfetch _ _ _ _ Hip) as (ip & ->)
      end.
      eauto.
    + left. injection H as <- <- <-. eauto.
Qed.

(** The start of the one machine named devbox, whose address is absent for
    two reads: the identifier and the address, after three reads. *)
Example start_devbox :
  (start_instance reference "devbox" "198.51.100.7" (empty_world one_devbox)).1
  = Return (Some "i-0123", Some "203.0.113.5")
  ∧ List.filter
      (fun c => match c with GetPublicIpAddress _ => true | _ => false end)
      (calls (start_instance reference "devbox" "198.51.100.7"
                             (empty_world one_devbox)).2)
    = [GetPublicIpAddress "i-0123"; GetPublicIpAddress "i-0123";
       GetPublicIpAddress "i-0123"].
Proof. split; reflexivity. Qed.

(** * Further properties of the retry wrapper *)




Lemma loop_last_attempt
  {W A : Type} (sleep : N → W → outcome unit * W) (none : A)
  (exception : exn_class) (report : message → W → W)
  (function : W → outcome A * W) (schedule : list (option N)) :
  ∀ problems w,
    (∃ w0 w1,
       function w0
       = ((loop sleep none exception report function (schedule ++ [None])
                problems w).1, w1)
       ∧ ((loop sleep none exception report function (schedule ++ [None])
                problems w).2 = w1
          ∨ ∃ ps,
              (loop sleep none exception report function (schedule ++ [None])
                    problems w).2
              = report (RetryFailedDefinitely ps) w1))
    ∨ (∃ d w0 err,
         In (Some d) schedule
         ∧ sleep d w0
           = (Raise err,
              (loop sleep none exception report function (schedule ++ [None])
                    problems w).2)
         ∧ (loop sleep none exception report function (schedule ++ [None])
                 problems w).1 = Raise err).
Proof.
  induction schedule as [|delay schedule IH]; intros problems w; simpl.
  - left. destruct (function w) as [[v|e] w1] eqn:Hf.
    + exists w, w1. rewrite Hf. auto.
    + destruct (isinstance e exception); [|exists w, w1; rewrite Hf; auto].
      destruct (code_is_403 e); exists w, w1; rewrite Hf; simpl; eauto.
  - destruct (function w) as [[v|e] w1] eqn:Hf.
    + left. exists w, w1. rewrite Hf. auto.
    + destruct (isinstance e exception);
        [|left; exists w, w1; rewrite Hf; auto].
      destruct (code_is_403 e); [left; exists w, w1; rewrite Hf; auto|].
      destruct delay as [d|].
      * destruct (sleep d (report (RetryFailed e d) w1))
          as [[[]|err] w2] eqn:Hs.
        -- destruct (IH (problems ++ [e]) w2)
             as [H | (d' & w0 & err & Hin & Hsl & Hr)]; [left; exact H|].
           right. exists d', w0, err. auto.
        -- right. exists d, (report (RetryFailed e d) w1), err. simpl. auto.
      * left. exists w, w1. rewrite Hf. simpl. eauto.
Qed.

(** X2.  What the wrapper returns or raises is what its last invocation of
    the function returned or raised, and the world is left as that
    invocation left it, but for the report of the terminal failure; or it is
    an error that [time.sleep] raised on one of the delays, and the world is
    left as that call left it.  The wrapper has no value of its own: it does
    not fall off its loop. *)
Theorem retry_outcome_is_last_attempt
  {W A : Type} (sleep : N → W → outcome unit * W) (none : A) (delays : list N)
  (exception : exn_class) (report : message → W → W)
  (function : W → outcome A * W) (w : W) :
  (∃ w0 w1,
     function w0 = ((retry sleep none delays exception report function w).1, w1)
     ∧ ((retry sleep none delays exception report function w).2 = w1
        ∨ ∃ problems,
            (retry sleep none delays exception report function w).2
            = report (RetryFailedDefinitely problems) w1))
  ∨ (∃ d w0 err,
       In d delays
       ∧ sleep d w0
         = (Raise err, (retry sleep none delays exception report function w).2)
       ∧ (retry sleep none delays exception report function w).1 = Raise err).
Proof.
  destruct (loop_last_attempt sleep none exception report function
              (map Some delays) [] w)
    as [H | (d & w0 & err & Hin & Hs & Hr)]; [left; exact H|].
  right. exists d, w0, err. split; [|split; assumption].
  apply in_map_iff in Hin as (d' & Heq & Hin). congruence.
Qed.

(** X3.  An error that the [except] clause does not catch, at any attempt:
    the wrapper lets it through, with no report and no sleep after the
    attempt, whatever delays are left.  The attempts before it failed with
    errors that were retried, and [time.sleep] accepted the delays after
    them. *)
Theorem retry_uncaught_error_passes
  {St A : Type} (none : A) (exception : exn_class)
  (function : St → outcome A * St) (D : list N)
  (s : St) (es : list exn) (s1 : St) (e : exn) (s2 : St) :
  fails_with function s es s1 →
  Forall (fun e => retried exception e = true) es →
  (length es ≤ length D)%nat →
  Forall (fun d => sleep_accepts d = true) (take (length es) D) →
  function s1 = (Raise e, s2) →
  isinstance e exception = false →
  run_retry none exception function D s
  = (Raise e, (s2, rounds es D ++ [EvCall])).
Proof.
  intros Hf Hall Hlen Hacc Hcall Hi.
  rewrite (run_retry_prefix none exception function D s es s1
             Hf Hall Hlen Hacc).
  destruct (chain_cons (drop (length es) D)) as (delay & schedule & ->).
  apply obs_loop_not_retried; [exact Hcall|].
  unfold retried. rewrite Hi. reflexivity.
Qed.

Lemma retry_uncaught_error_passes_witness :
  run_retry None Exception interrupted_later default_delays 0%nat
  = (Raise interrupted, (2%nat, rounds [not_yet] default_delays ++ [EvCall])).
Proof.
  apply (retry_uncaught_error_passes None Exception interrupted_later
           default_delays 0%nat [not_yet] 1%nat interrupted 2%nat).
  - apply (fails_cons _ _ _ 1%nat); [reflexivity | apply fails_nil].
  - repeat constructor.
  - simpl. lia.
  - repeat constructor.
  - reflexivity.
  - reflexivity.
Defined.

(** * Further properties of the EC2 operations *)

Lemma call_calls {P A : Type} (c : api_call) (op : P → outcome A * P)
  (w : world P) :
  calls (call c op w).2 = calls w ++ [c].
Proof. unfold call. destruct (op (remote w)). reflexivity. Qed.

Lemma resource_calls {P : Type} (instance_id : option string) (w : world P) :
  calls (get_ec2_instance_resource instance_id w).2 = calls w.
Proof. destruct instance_id; reflexivity. Qed.

Lemma authorize_calls
  {P : Type} (aws : provider P) (sg : SecurityGroup) (ip : string) (w : world P) :
  calls (authorize_ingress aws (Some sg) ip w).2
  = calls w ++ [AuthorizeIngress (group_id sg) (ip_permissions_for ip)].
Proof.
  rewrite authorize_cases.
  destruct (group_authorize_ingress aws (group_id sg) (ip_permissions_for ip)
                                    (remote w)) as [[response|err] p];
    [reflexivity|].
  cbn beta iota zeta. destruct (isinstance err ClientError); [|reflexivity].
  destruct (String.eqb (error_Code err) duplicate_code); reflexivity.
Qed.

(** X4.  The locator sends one request, the query by name.  It logs one
    ERROR line when it returns no identifier, and nothing when it returns an
    identifier or raises. *)
Theorem locator_logs_every_null
  {P : Type} (aws : provider P) (instance_name : string) (w : world P) :
  calls (get_ec2_instance_id_by_name aws instance_name w).2
  = calls w ++ [DescribeInstances instance_name]
  ∧ match (get_ec2_instance_id_by_name aws instance_name w).1 with
    | Return None =>
        ∃ line,
          records (get_ec2_instance_id_by_name aws instance_name w).2
          = records w ++ [(ERROR, Str line)]
    | _ =>
        records (get_ec2_instance_id_by_name aws instance_name w).2 = records w
    end.
Proof.
  rewrite locator_cases.
  destruct (describe_instances aws instance_name (remote w)) as [[rs|e] p].
  - destruct rs as [|r [|r' rs]]; cbn beta iota zeta.
    + split; [reflexivity|]. eexists. reflexivity.
    + destruct (Instances r); split; reflexivity.
    + split; [reflexivity|]. eexists. reflexivity.
  - cbn beta iota zeta. destruct (isinstance e Exception).
    + split; [reflexivity|]. eexists. reflexivity.
    + split; reflexivity.
Qed.

Lemma resource_from_factory {P : Type} (instance_id : option string) (w : world P) :
  get_ec2_instance_resource instance_id w
  = get_ec2_instance_resource_from (boto3_Instance instance_id) w.
Proof. reflexivity. Qed.

(** X5.  When making the resource raises a [ValueError] whose text does not
    contain "Required parameter", the handler neither returns nor raises, and
    the [return resource] that follows finds [resource] unbound: the
    function raises [UnboundLocalError] in place of the [ValueError], and
    logs nothing. *)
Theorem resource_unbound_after_value_error
  {P : Type} (e : exn) (w : world P) :
  isinstance e ValueError = true →
  contains "Required parameter" (exn_str e) = false →
  ∃ e',
    get_ec2_instance_resource_from (Raise e) w = (Raise e', w)
    ∧ exn_cls e' = UnboundLocalError.
Proof.
  intros Hv Hc.
  assert (Hcls : exn_cls e = ValueError).
  { unfold isinstance in Hv. apply bool_decide_eq_true in Hv. exact Hv. }
  unfold get_ec2_instance_resource_from, bind, try_except, lift, ret, raise.
  unfold isinstance. rewrite Hcls. simpl. rewrite Hc.
  eexists. split; reflexivity.
Qed.

Lemma resource_unbound_after_value_error_witness :
  ∃ e',
    get_ec2_instance_resource_from
      (Raise (mk_exn ValueError "malformed identifier" None "" ""))
      (empty_world one_devbox)
    = (Raise e', empty_world one_devbox)
    ∧ exn_cls e' = UnboundLocalError.
Proof.
  apply (resource_unbound_after_value_error
           (mk_exn ValueError "malformed identifier" None "" "")
           (empty_world one_devbox)); reflexivity.
Defined.

(** One turn of the loop. *)
Lemma loop_step
  {W A : Type} (sleep : N → W → outcome unit * W) (none : A)
  (exception : exn_class)
  (report : message → W → W) (function : W → outcome A * W)
  (delay : option N) (schedule : list (option N)) (problems : list exn) (w : W) :
  loop sleep none exception report function (delay :: schedule) problems w
  = match function w with
    | (Return v, w1) => (Return v, w1)
    | (Raise problem, w1) =>
        if isinstance problem exception then
          if code_is_403 problem then (Raise problem, w1)
          else
            match delay with
            | None =>
                (Raise problem,
                 report (RetryFailedDefinitely (problems ++ [problem])) w1)
            | Some d =>
                match sleep d (report (RetryFailed problem d) w1) with
                | (Return _, w2) =>
                    loop sleep none exception report function schedule
                         (problems ++ [problem]) w2
                | (Raise err, w2) => (Raise err, w2)
                end
            end
        else (Raise problem, w1)
    end.
Proof. reflexivity. Qed.

Lemma time_sleep_accepted
  {P : Type} (aws : provider P) (d : N) (w : world P) :
  sleep_accepts d = true →
  time_sleep aws d w
  = (Return tt,
     mk_world (elapse aws d (remote w)) (calls w ++ [Sleep d]) (records w)).
Proof. intros H. unfold time_sleep. rewrite H. reflexivity. Qed.

Lemma default_delays_accepted :
  Forall (fun d => sleep_accepts d = true) default_delays.
Proof. repeat constructor. Qed.

(** The reads and sleeps of the decorated fetch, over any schedule of
    delays that [time.sleep] accepts. *)
Lemma public_ip_loop_polls
  {P : Type} (aws : provider P) (instance_resource : ec2_Instance)
  (ds : list N) :
  Forall (fun d => sleep_accepts d = true) ds →
  ∀ problems (w : world P),
  ∃ k,
    (k ≤ length ds)%nat
    ∧ calls (loop (time_sleep aws) None Exception report_info
                  (get_instance_public_ip_body aws instance_resource)
                  (map Some ds ++ [None]) problems w).2
      = calls w ++ polls (resource_id instance_resource) (take k ds)
        ++ [GetPublicIpAddress (resource_id instance_resource)].
Proof.
  set (i := resource_id instance_resource).
  assert (Hbody : ∀ w : world P,
             calls (get_instance_public_ip_body aws instance_resource w).2
             = calls w ++ [GetPublicIpAddress i]).
  { intros w. unfold get_instance_public_ip_body, bind, call, raise, ret.
    fold i. destruct (instance_public_ip_address aws i (remote w))
      as [[[ip|]|e] p]; reflexivity. }
  intros Hacc.
  induction ds as [|d ds IH]; intros problems w.
  - exists 0%nat. split; [simpl; lia|].
    change (map Some [] ++ [None]) with [@None N]. rewrite loop_step.
    pose proof (Hbody w) as Hb.
    destruct (get_instance_public_ip_body aws instance_resource w)
      as [[v|e] w1]; [exact Hb|].
    destruct (isinstance e Exception); [|exact Hb].
    destruct (code_is_403 e); exact Hb.
  - pose proof (Hbody w) as Hb.
    change (map Some (d :: ds) ++ [None])
      with (Some d :: (map Some ds ++ [None])).
    rewrite loop_step.
    destruct (get_instance_public_ip_body aws instance_resource w)
      as [[v|e] w1].
    + exists 0%nat. split; [simpl; lia | exact Hb].
    + destruct (isinstance e Exception);
        [|exists 0%nat; split; [simpl; lia | exact Hb]].
      destruct (code_is_403 e);
        [exists 0%nat; split; [simpl; lia | exact Hb]|].
      inversion Hacc as [|? ? Hd Hacc']; subst.
      rewrite (time_sleep_accepted aws d _ Hd).
      destruct (IH Hacc' (problems ++ [e])
                   (mk_world
                      (elapse aws d (remote (report_info (RetryFailed e d) w1)))
                      (calls (report_info (RetryFailed e d) w1) ++ [Sleep d])
                      (records (report_info (RetryFailed e d) w1))))
        as (k & Hk & Hcalls).
      exists (S k). split; [simpl; lia|].
      rewrite Hcalls. simpl in Hb |- *. rewrite Hb, <- !app_assoc. reflexivity.
Qed.

Lemma public_ip_polls_shape
  {P : Type} (aws : provider P) (instance_resource : ec2_Instance)
  (w : world P) :
  ∃ k,
    (k ≤ 6)%nat
    ∧ calls (get_instance_public_ip aws instance_resource w).2
      = calls w
        ++ polls (resource_id instance_resource) (take k default_delays)
        ++ [GetPublicIpAddress (resource_id instance_resource)].
Proof.
  exact (public_ip_loop_polls aws instance_resource default_delays
           default_delays_accepted [] w).
Qed.

(** X12.  The decorated fetch reads the address at most seven times, and
    after a read that gave no address it sleeps the next delay of
    0, 1, 2, 4, 8, 16 seconds before it reads again: its calls are the reads
    and sleeps of the first delays, then one last read. *)
Theorem public_ip_polls_bounded
  {P : Type} (aws : provider P) (instance_resource : ec2_Instance)
  (w : world P) :
  ∃ k,
    (k ≤ 6)%nat
    ∧ calls (get_instance_public_ip aws instance_resource w).2
      = calls w
        ++ polls (resource_id instance_resource) (take k default_delays)
        ++ [GetPublicIpAddress (resource_id instance_resource)].
Proof.
  exact (public_ip_loop_polls aws instance_resource default_delays
           default_delays_accepted [] w).
Qed.

Lemma public_ip_loop_absent
  {P : Type} (aws : provider P) (instance_resource : ec2_Instance)
  (ds : list N) :
  Forall (fun d => sleep_accepts d = true) ds →
  ∀ problems (w : world P),
    absent_along aws (resource_id instance_resource) ds (remote w) →
    (loop (time_sleep aws) None Exception report_info
          (get_instance_public_ip_body aws instance_resource)
          (map Some ds ++ [None]) problems w).1
    = Raise no_public_ip
    ∧ calls (loop (time_sleep aws) None Exception report_info
                  (get_instance_public_ip_body aws instance_resource)
                  (map Some ds ++ [None]) problems w).2
      = calls w ++ polls (resource_id instance_resource) ds
        ++ [GetPublicIpAddress (resource_id instance_resource)].
Proof.
  set (i := resource_id instance_resource).
  assert (Hbody : ∀ (w : world P) p,
             instance_public_ip_address aws i (remote w) = (Return None, p) →
             get_instance_public_ip_body aws instance_resource w
             = (Raise no_public_ip,
                mk_world p (calls w ++ [GetPublicIpAddress i]) (records w))).
  { intros w p H. unfold get_instance_public_ip_body, bind, call, raise, ret.
    fold i. rewrite H. reflexivity. }
  intros Hacc.
  induction ds as [|d ds IH]; intros problems w Habs; simpl in Habs;
    destruct (instance_public_ip_address aws i (remote w))
      as [[[ip|]|e] p] eqn:Hread; try contradiction.
  - change (map Some [] ++ [None]) with [@None N].
    rewrite loop_step, (Hbody w p Hread). split; reflexivity.
  - change (map Some (d :: ds) ++ [None])
      with (Some d :: (map Some ds ++ [None])).
    rewrite loop_step, (Hbody w p Hread).
    change (isinstance no_public_ip Exception) with true.
    change (code_is_403 no_public_ip) with false. cbn beta iota.
    inversion Hacc as [|? ? Hd Hacc']; subst.
    rewrite (time_sleep_accepted aws d _ Hd).
    destruct (IH Hacc' (problems ++ [no_public_ip])
                 (mk_world
                    (elapse aws d p)
                    (calls w ++ [GetPublicIpAddress i] ++ [Sleep d])
                    (records w
                     ++ [(INFO, Fmt (RetryFailed no_public_ip d))])))
      as (Hres & Hcalls); [exact Habs|].
    cbn [report_info log remote calls records].
    rewrite <- app_assoc.
    split; [exact Hres|].
    rewrite Hcalls. simpl. rewrite <- !app_assoc. reflexivity.
Qed.

(** X13.  When the address is absent at each of the seven reads, the
    decorated fetch raises the "No public IP address found" error of the
    last read, after it has read seven times and slept 0, 1, 2, 4, 8 and 16
    seconds in between. *)
Theorem public_ip_gives_up_when_absent
  {P : Type} (aws : provider P) (instance_resource : ec2_Instance)
  (w : world P) :
  absent_along aws (resource_id instance_resource) default_delays (remote w) →
  (get_instance_public_ip aws instance_resource w).1 = Raise no_public_ip
  ∧ calls (get_instance_public_ip aws instance_resource w).2
    = calls w ++ polls (resource_id instance_resource) default_delays
      ++ [GetPublicIpAddress (resource_id instance_resource)].
Proof.
  exact (public_ip_loop_absent aws instance_resource default_delays
           default_delays_accepted [] w).
Qed.

Lemma public_ip_gives_up_when_absent_witness :
  (get_instance_public_ip reference {| resource_id := "i-0123" |}
                          (empty_world one_devbox)).1
  = Raise no_public_ip
  ∧ calls (get_instance_public_ip reference {| resource_id := "i-0123" |}
                                  (empty_world one_devbox)).2
    = calls (empty_world one_devbox) ++ polls "i-0123" default_delays
      ++ [GetPublicIpAddress "i-0123"].
Proof.
  apply (public_ip_gives_up_when_absent reference {| resource_id := "i-0123" |}
           (empty_world one_devbox)).
  vm_compute. exact I.
Defined.

(** The common start of the four operations: the name is resolved, and the
    resource is made of the identifier. *)
Lemma resolve_cases
  {P B : Type} (aws : provider P) (instance_name : string)
  (k : option string → option ec2_Instance → M P B) (w : world P) :
  bind (get_ec2_instance_id_by_name aws instance_name)
       (fun instance_id =>
          bind (get_ec2_instance_resource instance_id)
               (fun instance => k instance_id instance)) w
  = match get_ec2_instance_id_by_name aws instance_name w with
    | (Return (Some i), w1) => k (Some i) (Some {| resource_id := i |}) w1
    | (Return None, w1) =>
        k None None
          (log ERROR (Str "No instance ID was found for the lookup operation")
               w1)
    | (Raise e, w1) => (Raise e, w1)
    end.
Proof.
  unfold bind at 1.
  destruct (get_ec2_instance_id_by_name aws instance_name w)
    as [[[i|]|e] w1]; reflexivity.
Qed.

(** X6.  [stop_instance] returns an identifier only after it has sent the
    stop command for that instance and then waited for it to be stopped; on
    a name that does not resolve it sends the query alone; when it raises,
    the wait was not sent unless the stop command went through.  It never
    reads an address, authorises nothing and does not sleep. *)
Theorem stop_instance_calls
  {P : Type} (aws : provider P) (instance_name : string) (w : world P) :
  match (stop_instance aws instance_name w).1 with
  | Return (Some i) =>
      calls (stop_instance aws instance_name w).2
      = calls w ++ [DescribeInstances instance_name; Stop i; WaitUntilStopped i]
  | Return None =>
      calls (stop_instance aws instance_name w).2
      = calls w ++ [DescribeInstances instance_name]
  | Raise e =>
      calls (stop_instance aws instance_name w).2
      = calls w ++ [DescribeInstances instance_name]
      ∨ ∃ i,
          calls (stop_instance aws instance_name w).2
          = calls w ++ [DescribeInstances instance_name; Stop i]
          ∨ calls (stop_instance aws instance_name w).2
            = calls w
              ++ [DescribeInstances instance_name; Stop i; WaitUntilStopped i]
  end.
Proof.
  unfold stop_instance.
  rewrite (bind_step (logger_info _) _ w tt _ eq_refl), resolve_cases.
  match goal with
  | |- context [get_ec2_instance_id_by_name aws instance_name ?w0] =>
      pose proof (locator_calls aws instance_name w0) as Hc;
      destruct (get_ec2_instance_id_by_name aws instance_name w0)
        as [[[i|]|e] w1]
  end; simpl in Hc.
  - unfold bind, logger_info, call, ret. simpl.
    destruct (instance_stop aws i (remote w1)) as [[[]|e] p]; simpl.
    + destruct (instance_wait_until_stopped aws i p) as [[[]|e] p']; simpl;
        rewrite Hc, <- !app_assoc; [reflexivity|].
      right. exists i. right. reflexivity.
    + rewrite Hc, <- !app_assoc. right. exists i. left. reflexivity.
  - simpl. exact Hc.
  - simpl. left. exact Hc.
Qed.

(** X7.  [reboot_instance] returns an identifier only after it has sent the
    reboot command for that instance, and sends nothing after it: it does
    not wait and reads no address. *)
Theorem reboot_instance_calls
  {P : Type} (aws : provider P) (instance_name : string) (w : world P) :
  match (reboot_instance aws instance_name w).1 with
  | Return (Some i) =>
      calls (reboot_instance aws instance_name w).2
      = calls w ++ [DescribeInstances instance_name; Reboot i]
  | Return None =>
      calls (reboot_instance aws instance_name w).2
      = calls w ++ [DescribeInstances instance_name]
  | Raise e =>
      calls (reboot_instance aws instance_name w).2
      = calls w ++ [DescribeInstances instance_name]
      ∨ ∃ i,
          calls (reboot_instance aws instance_name w).2
          = calls w ++ [DescribeInstances instance_name; Reboot i]
  end.
Proof.
  unfold reboot_instance.
  rewrite (bind_step (logger_info _) _ w tt _ eq_refl), resolve_cases.
  match goal with
  | |- context [get_ec2_instance_id_by_name aws instance_name ?w0] =>
      pose proof (locator_calls aws instance_name w0) as Hc;
      destruct (get_ec2_instance_id_by_name aws instance_name w0)
        as [[[i|]|e] w1]
  end; simpl in Hc.
  - unfold bind, logger_info, call, ret. simpl.
    destruct (instance_reboot aws i (remote w1)) as [[[]|e] p]; simpl;
      rewrite Hc, <- !app_assoc; [reflexivity|].
    right. exists i. reflexivity.
  - simpl. exact Hc.
  - simpl. left. exact Hc.
Qed.

Lemma polls_read_only (i : string) (ds : list N) :
  forallb reads_only (polls i ds) = true.
Proof. induction ds as [|d ds IH]; [reflexivity | exact IH]. Qed.

(** X11.  [get_instance_status] only asks: whatever the provider answers,
    the calls it makes are the query by name, reads of the state and of the
    address, and sleeps; it starts, stops, reboots and authorises nothing. *)
Theorem status_only_reads
  {P : Type} (aws : provider P) (instance_name : string) (w : world P) :
  ∃ l,
    calls (get_instance_status aws instance_name w).2 = calls w ++ l
    ∧ forallb reads_only l = true.
Proof.
  unfold get_instance_status. rewrite resolve_cases.
  pose proof (locator_calls aws instance_name w) as Hc.
  destruct (get_ec2_instance_id_by_name aws instance_name w)
    as [[[i|]|e] w1]; simpl in Hc;
    [|eexists; split; [exact Hc | reflexivity]..].
  cbn beta iota zeta. simpl resource_id.
  unfold bind at 1.
  pose proof (call_calls (GetStateName i) (instance_state_Name aws i) w1) as Hs.
  destruct (call (GetStateName i) (instance_state_Name aws i) w1)
    as [[state_Name|e] w2]; cbn [snd] in Hs; cbn beta iota.
  - destruct (String.eqb state_Name "stopped").
    + eexists. split; [cbn [ret snd]; rewrite Hs, Hc, <- app_assoc; reflexivity|].
      reflexivity.
    + unfold bind at 1.
      destruct (public_ip_polls_shape aws {| resource_id := i |} w2)
        as (k & _ & Hp).
      destruct (get_instance_public_ip aws {| resource_id := i |} w2)
        as [[public_ip|e] w3]; cbn [snd resource_id] in Hp; cbn beta iota.
      * unfold bind at 1.
        pose proof (call_calls (GetStateName i) (instance_state_Name aws i) w3)
          as Hs'.
        destruct (call (GetStateName i) (instance_state_Name aws i) w3)
          as [[state_Name'|e] w4]; cbn [snd] in Hs'; cbn beta iota;
          (eexists; split;
           [cbn [ret snd]; rewrite Hs', Hp, Hs, Hc, <- !app_assoc; reflexivity|]);
          cbn [app forallb reads_only andb];
          rewrite ?forallb_app, ?polls_read_only; reflexivity.
      * eexists.
        split; [cbn [snd]; rewrite Hp, Hs, Hc, <- !app_assoc; reflexivity|].
        cbn [app forallb reads_only andb].
        rewrite ?forallb_app, ?polls_read_only. reflexivity.
  - eexists. split; [cbn [snd]; rewrite Hs, Hc, <- app_assoc; reflexivity|].
    reflexivity.
Qed.

Ltac norm_world :=
  cbn beta iota zeta delta [remote calls records fst snd log resource_id].

Ltac stop_at i g :=
  exists i, g, 0%nat; eexists; split; [lia|]; split;
  [cbn [snd calls]; rewrite <- ?app_assoc; reflexivity|];
  split; [eexists; reflexivity | intros ? ? ?; discriminate].

(** Every run of [start_instance]: its calls are an initial part of the
    calls of a whole run, and they are the whole when it returns an
    identifier. *)
Lemma start_instance_shape
  {P : Type} (aws : provider P) (instance_name my_ip : string) (w : world P) :
  ∃ i g k l,
    (k ≤ 6)%nat
    ∧ calls (start_instance aws instance_name my_ip w).2 = calls w ++ l
    ∧ l `prefix_of` start_calls instance_name my_ip i g k
    ∧ (∀ j public_ip,
         (start_instance aws instance_name my_ip w).1
         = Return (Some j, public_ip) →
         j = i ∧ l = start_calls instance_name my_ip i g k).
Proof.
  unfold start_instance, start_calls.
  rewrite (bind_step (logger_info _) _ w tt _ eq_refl), resolve_cases.
  match goal with
  | |- context [get_ec2_instance_id_by_name aws instance_name ?w0] =>
      pose proof (locator_calls aws instance_name w0) as Hc;
      destruct (get_ec2_instance_id_by_name aws instance_name w0)
        as [[[i|]|e] w1]
  end; cbn [snd log calls] in Hc;
    [| exists "", "", 0%nat; eexists; split; [lia|]; split;
       [cbn [snd ret log calls]; exact Hc|];
       split; [eexists; reflexivity | intros ? ? ?; discriminate] ..].
  set (auth := authorize_ingress aws).
  set (fetch := get_instance_public_ip aws).
  unfold bind, logger_info, call, lift, index0, get_security_group, ret.
  norm_world.
  destruct (instance_start aws i (remote w1)) as [[[]|e] p2]; norm_world;
    [|rewrite Hc; stop_at i ""].
  destruct (instance_wait_until_running aws i p2) as [[[]|e] p3]; norm_world;
    [|rewrite Hc; stop_at i ""].
  destruct (instance_security_groups aws i p3) as [[groups|e] p4]; norm_world;
    [|rewrite Hc; stop_at i ""].
  destruct groups as [|g groups]; norm_world; [rewrite Hc; stop_at i ""|].
  destruct (instance_security_groups aws i p4) as [[groups'|e] p5]; norm_world;
    [|rewrite Hc; stop_at i ""].
  destruct groups' as [|g' groups']; norm_world; [rewrite Hc; stop_at i ""|].
  subst auth.
  match goal with
  | |- context [authorize_ingress aws (Some ?sg) my_ip ?w5] =>
      pose proof (authorize_calls aws sg my_ip w5) as Ha;
      destruct (authorize_ingress aws (Some sg) my_ip w5) as [[r|e] w6]
  end; cbn [snd calls log group_id] in Ha; norm_world;
    [|rewrite Ha, Hc; stop_at i (GroupId g')].
  subst fetch.
  destruct (public_ip_polls_shape aws {| resource_id := i |} w6)
    as (k & Hk & Hp).
  exists i, (GroupId g'), k. eexists. split; [exact Hk|].
  destruct (get_instance_public_ip aws {| resource_id := i |} w6)
    as [[public_ip|e] w7]; cbn [snd resource_id] in Hp; norm_world;
    (split; [rewrite Hp, Ha, Hc, <- !app_assoc; reflexivity|]);
    (split; [exists []; rewrite app_nil_r; reflexivity|]).
  - intros j ip' H. injection H as <- _. split; reflexivity.
  - intros j ip' H. discriminate.
Qed.

(** X8.  In every run of [start_instance] the calls made are an initial part
    of this sequence: the query by name, the start command, the wait for the
    running state, two reads of the instance's groups, the authorisation of
    the caller's address on one group, then the reads of the address with
    their sleeps.  So nothing is authorised before the instance was started
    and reported running, and no stop or reboot is sent when a later step
    fails. *)
Theorem start_instance_order
  {P : Type} (aws : provider P) (instance_name my_ip : string) (w : world P) :
  ∃ i g k l,
    (k ≤ 6)%nat
    ∧ calls (start_instance aws instance_name my_ip w).2 = calls w ++ l
    ∧ l `prefix_of` start_calls instance_name my_ip i g k.
Proof.
  destruct (start_instance_shape aws instance_name my_ip w)
    as (i & g & k & l & Hk & Hcalls & Hpre & _).
  exists i, g, k, l. auto.
Qed.

(** X10.  When [start_instance] returns an identifier, it has made the whole
    sequence of calls for that instance: query, start, wait, the reads of
    the groups, the authorisation of the caller's address as a /32 range on
    TCP port 22, and the reads of the address. *)
Theorem start_instance_returns_after_all_steps
  {P : Type} (aws : provider P) (instance_name my_ip : string) (w : world P)
  (i : string) (public_ip : option string) (w' : world P) :
  start_instance aws instance_name my_ip w = (Return (Some i, public_ip), w') →
  ∃ g k,
    (k ≤ 6)%nat
    ∧ calls w' = calls w ++ start_calls instance_name my_ip i g k.
Proof.
  intros H.
  destruct (start_instance_shape aws instance_name my_ip w)
    as (i' & g & k & l & Hk & Hcalls & _ & Hfull).
  rewrite H in Hcalls, Hfull. cbn [fst snd] in Hcalls, Hfull.
  destruct (Hfull i public_ip eq_refl) as [-> ->].
  exists g, k. auto.
Qed.

Lemma start_instance_returns_after_all_steps_witness :
  ∃ g k,
    (k ≤ 6)%nat
    ∧ calls (start_instance reference "devbox" "198.51.100.7"
                            (empty_world one_devbox)).2
      = calls (empty_world one_devbox)
        ++ start_calls "devbox" "198.51.100.7" "i-0123" g k.
Proof.
  apply (start_instance_returns_after_all_steps reference "devbox"
           "198.51.100.7" (empty_world one_devbox) "i-0123"
           (Some "203.0.113.5")).
  reflexivity.
Defined.

(** X9.  An instance that is in no security group: [start_instance] has
    started it and waited for the running state when the indexing of the
    empty list of groups raises [IndexError]; nothing is authorised, the
    address is not read, and the provider is left as the read of the groups
    left it, with the instance started. *)
Theorem start_without_security_group
  {P : Type} (aws : provider P) (instance_name my_ip : string) (w : world P)
  (r : reservation) (x : instance_description)
  (rest : list instance_description) (p1 p2 p3 p4 : P) :
  describe_instances aws instance_name (remote w) = (Return [r], p1) →
  Instances r = x :: rest →
  instance_start aws (InstanceId x) p1 = (Return tt, p2) →
  instance_wait_until_running aws (InstanceId x) p2 = (Return tt, p3) →
  instance_security_groups aws (InstanceId x) p3 = (Return [], p4) →
  ∃ e,
    (start_instance aws instance_name my_ip w).1 = Raise e
    ∧ exn_cls e = IndexError
    ∧ calls (start_instance aws instance_name my_ip w).2
      = calls w ++ [DescribeInstances instance_name; Start (InstanceId x);
                    WaitUntilRunning (InstanceId x);
                    GetSecurityGroups (InstanceId x)]
    ∧ remote (start_instance aws instance_name my_ip w).2 = p4.
Proof.
  intros Hd Hi Hstart Hwait Hgroups.
  unfold start_instance.
  rewrite (bind_step (logger_info _) _ w tt _ eq_refl), resolve_cases.
  rewrite locator_cases. norm_world. rewrite Hd. cbn beta iota zeta.
  rewrite Hi.
  set (auth := authorize_ingress aws).
  set (fetch := get_instance_public_ip aws).
  unfold bind, logger_info, call, lift, index0, get_security_group, ret.
  norm_world. rewrite Hstart. norm_world. rewrite Hwait. norm_world.
  rewrite Hgroups. norm_world.
  eexists. repeat split. rewrite <- !app_assoc. reflexivity.
Qed.

Lemma start_without_security_group_witness :
  ∃ e,
    (start_instance reference "devbox" "198.51.100.7"
                    (empty_world ungrouped_devbox)).1 = Raise e
    ∧ exn_cls e = IndexError
    ∧ calls (start_instance reference "devbox" "198.51.100.7"
                            (empty_world ungrouped_devbox)).2
      = calls (empty_world ungrouped_devbox)
        ++ [DescribeInstances "devbox"; Start "i-0123";
            WaitUntilRunning "i-0123"; GetSecurityGroups "i-0123"]
    ∧ remote (start_instance reference "devbox" "198.51.100.7"
                             (empty_world ungrouped_devbox)).2
      = update_vm "i-0123" (set_state "running") ungrouped_devbox.
Proof.
  apply (start_without_security_group reference "devbox" "198.51.100.7"
           (empty_world ungrouped_devbox)
           {| Instances := [ {| InstanceId := "i-0123" |} ] |}
           {| InstanceId := "i-0123" |} []
           ungrouped_devbox
           (update_vm "i-0123" (set_state "running") ungrouped_devbox)
           (update_vm "i-0123" (set_state "running") ungrouped_devbox)
           (update_vm "i-0123" (set_state "running") ungrouped_devbox));
    reflexivity.
Defined.

(** * Properties of the commands *)

Lemma stop_instance_unresolved
  {P : Type} (aws : provider P) (instance_name : string) (w : world P) :
  unresolved aws instance_name (remote w) = true →
  (stop_instance aws instance_name w).1 = Return None
  ∧ (reboot_instance aws instance_name w).1 = Return None
  ∧ (get_instance_status aws instance_name w).1 = Return (None, None).
Proof.
  intros H.
  destruct (locator_unresolved aws instance_name
              (log INFO (Str ("1. Getting EC2 Instance by name "
                              +:+ instance_name +:+ "...")) w) H)
    as (w1 & Hloc & _).
  destruct (locator_unresolved aws instance_name w H) as (w2 & Hloc2 & _).
  repeat split.
  - unfold stop_instance.
    rewrite (bind_step (logger_info _) _ w tt _ eq_refl), resolve_cases, Hloc.
    reflexivity.
  - unfold reboot_instance.
    rewrite (bind_step (logger_info _) _ w tt _ eq_refl), resolve_cases, Hloc.
    reflexivity.
  - unfold get_instance_status. rewrite resolve_cases, Hloc2. reflexivity.
Qed.

(** X14.  On a name that does not resolve, the commands stop, reboot and
    status end without an error and write their usual line with None in the
    place of the identifier, of the state and of the address: "Stopped
    instance NAME (None)", "Rebooted instance NAME (None)" and "Instance NAME
    is None at IP None". *)
Theorem commands_on_unresolved_name
  {P : Type} (aws : provider P) (instance_name : string) (w : world P)
  (out : list string) :
  unresolved aws instance_name (remote w) = true →
  ((stop aws instance_name (w, out)).1 = Return tt
   ∧ (stop aws instance_name (w, out)).2.2
     = out ++ ["Stopped instance " +:+ instance_name +:+ " (None)"])
  ∧ ((reboot aws instance_name (w, out)).1 = Return tt
     ∧ (reboot aws instance_name (w, out)).2.2
       = out ++ ["Rebooted instance " +:+ instance_name +:+ " (None)"])
  ∧ ((status aws instance_name (w, out)).1 = Return tt
     ∧ (status aws instance_name (w, out)).2.2
       = out ++ ["Instance " +:+ instance_name +:+ " is None at IP None"]).
Proof.
  intros H.
  destruct (stop_instance_unresolved aws instance_name w H)
    as (Hstop & Hreboot & Hstatus).
  unfold stop, reboot, status. cbn [fst snd].
  destruct (stop_instance aws instance_name w) as [r1 w1].
  destruct (reboot_instance aws instance_name w) as [r2 w2].
  destruct (get_instance_status aws instance_name w) as [r3 w3].
  cbn [fst] in Hstop, Hreboot, Hstatus. subst r1 r2 r3.
  repeat split.
Qed.

Lemma commands_on_unresolved_name_witness :
  ((stop reference "nobody" (empty_world one_devbox, [])).1 = Return tt
   ∧ (stop reference "nobody" (empty_world one_devbox, [])).2.2
     = [] ++ ["Stopped instance " +:+ "nobody" +:+ " (None)"])
  ∧ ((reboot reference "nobody" (empty_world one_devbox, [])).1 = Return tt
     ∧ (reboot reference "nobody" (empty_world one_devbox, [])).2.2
       = [] ++ ["Rebooted instance " +:+ "nobody" +:+ " (None)"])
  ∧ ((status reference "nobody" (empty_world one_devbox, [])).1 = Return tt
     ∧ (status reference "nobody" (empty_world one_devbox, [])).2.2
       = [] ++ ["Instance " +:+ "nobody" +:+ " is None at IP None"]).
Proof.
  apply (commands_on_unresolved_name reference "nobody"
           (empty_world one_devbox) []).
  reflexivity.
Defined.

(** X15.  The command start looks the caller's address up first.  On a name
    that does not resolve it then sends the query alone, ends without an
    error and writes "Started instance NAME (None) at None"; nothing is
    started. *)
Theorem start_command_on_unresolved_name
  {P : Type} (aws : provider P)
  (get_my_ip : world P → outcome string * world P)
  (instance_name : string) (w : world P) (out : list string)
  (ip : string) (w0 : world P) :
  get_my_ip w = (Return ip, w0) →
  unresolved aws instance_name (remote w0) = true →
  (start aws get_my_ip instance_name (w, out)).1 = Return tt
  ∧ (start aws get_my_ip instance_name (w, out)).2.2
    = out ++ ["Started instance " +:+ instance_name +:+ " (None) at None"]
  ∧ calls (start aws get_my_ip instance_name (w, out)).2.1
    = calls w0 ++ [DescribeInstances instance_name].
Proof.
  intros Hip H.
  destruct (locator_unresolved aws instance_name
              (log INFO (Str ("1. Getting EC2 Instance by name "
                              +:+ instance_name +:+ "...")) w0) H)
    as (w1 & Hloc & Hc).
  unfold start. cbn [fst snd]. rewrite Hip.
  unfold start_instance.
  rewrite (bind_step (logger_info _) _ w0 tt _ eq_refl), resolve_cases, Hloc.
  cbn. repeat split. exact Hc.
Qed.

Lemma start_command_on_unresolved_name_witness :
  (start reference lookup_answers "nobody" (empty_world one_devbox, [])).1
  = Return tt
  ∧ (start reference lookup_answers "nobody" (empty_world one_devbox, [])).2.2
    = [] ++ ["Started instance " +:+ "nobody" +:+ " (None) at None"]
  ∧ calls (start reference lookup_answers "nobody"
                 (empty_world one_devbox, [])).2.1
    = calls (empty_world one_devbox) ++ [DescribeInstances "nobody"].
Proof.
  apply (start_command_on_unresolved_name reference lookup_answers "nobody"
           (empty_world one_devbox) [] "198.51.100.7"
           (empty_world one_devbox)); reflexivity.
Defined.

(** * The wrapper and a delay that [time.sleep] does not accept *)

(** X16.  A retried failure whose delay [time.sleep] does not accept (from
    9223372037 seconds on): the failure is reported, [time.sleep] is called
    and raises [OverflowError], and that error leaves the wrapper; the
    operation is not invoked again, and no terminal failure is reported.
    The attempts before it failed with errors that were retried, and
    [time.sleep] accepted their delays. *)
Theorem retry_sleep_error_leaves
  {St A : Type} (none : A) (exception : exn_class)
  (function : St → outcome A * St) (D : list N)
  (s : St) (es : list exn) (s1 : St) (e : exn) (s2 : St) (d : N) :
  fails_with function s es s1 →
  Forall (fun e => retried exception e = true) es →
  D !! length es = Some d →
  Forall (fun d => sleep_accepts d = true) (take (length es) D) →
  function s1 = (Raise e, s2) →
  retried exception e = true →
  sleep_accepts d = false →
  run_retry none exception function D s
  = (Raise overflow_error, (s2, rounds es D ++ round e d)).
Proof.
  intros Hf Hall Hd Hacc Hcall Hr Hno.
  assert (Hlen : (length es ≤ length D)%nat).
  { apply lookup_lt_Some in Hd. lia. }
  rewrite (run_retry_prefix none exception function D s es s1
             Hf Hall Hlen Hacc).
  rewrite (drop_S D d (length es) Hd).
  change (chain (d :: drop (S (length es)) D) [None])
    with (Some d :: chain (drop (S (length es)) D) [None]).
  apply obs_loop_sleep_raises; assumption.
Qed.

Lemma retry_sleep_error_leaves_witness :
  run_retry None Exception (flaky 1) [too_long] 0%nat
  = (Raise overflow_error,
     (1%nat, rounds [] [too_long] ++ round not_yet too_long)).
Proof.
  apply (retry_sleep_error_leaves None Exception (flaky 1) [too_long]
           0%nat [] 0%nat not_yet 1%nat too_long).
  - apply fails_nil.
  - constructor.
  - reflexivity.
  - constructor.
  - reflexivity.
  - reflexivity.
  - reflexivity.
Defined.
